(** * Stimulus segments of the PatchMaster reader

    A shallow embedding of [ipfx/x_to_nwb/hr_segments.py]: the delta
    stepping rule, the shared [Segment] behaviour and the four segment
    classes (square, constant, ramp, chirp), followed by the properties
    of the stimulus specification that concern them.

    Python floats are IEEE 754 binary64 values and are modelled by Rocq's
    primitive floats; Python integers are unbounded and are modelled by
    [Z]; a numpy array of dtype float64 is modelled by the list of its
    elements; a raised exception is the [Raise] branch of [result]; a
    method is a function of the object it is called on that hands the
    object back next to its result.  [scipy.signal.chirp] is a parameter
    of the chirp segment. *)

From Stdlib Require Import String ZArith List Bool Lia QArith Qround.
From Stdlib Require Import Floats.
Import ListNotations.

#[local] Set Warnings "-inexact-float".
#[local] Open Scope Z_scope.

(* ================================================================== *)
(** ** Python values, exceptions and the two monads of the embedding *)
(* ================================================================== *)

Module Py.

(** Values that end up inside a formatted error message. *)
Inductive value : Type :=
| VFloat (x : float)
| VInt (n : Z)
| VStr (s : string)
| VDelta (mode : string) (factor inc : float).

(** An f-string: literal text interleaved with formatted values. *)
Inductive fragment : Type :=
| Lit (s : string)
| Fmt (v : value).

Definition fstring := list fragment.

Inductive exn : Type :=
| ValueError (msg : fstring)
| AttributeError (cls attr : string)
| OverflowError (msg : string)
| ZeroDivisionError (msg : string)
| UnboundLocalError (name : string).

Inductive result (A : Type) : Type :=
| Ok (a : A)
| Raise (e : exn).
Arguments Ok {A} a.
Arguments Raise {A} e.

Definition bind {A B} (r : result A) (k : A -> result B) : result B :=
  match r with
  | Ok a => k a
  | Raise e => Raise e
  end.

(** A method body: it runs against the object [self], may raise, and
    hands back the object as it is after the call. *)
Definition Method (T A : Type) : Type := T -> result A * T.

Definition ret {T A} (a : A) : Method T A := fun self => (Ok a, self).

Definition mbind {T A B} (m : Method T A) (k : A -> Method T B) : Method T B :=
  fun self =>
    match m self with
    | (Ok a, self') => k a self'
    | (Raise e, self') => (Raise e, self')
    end.

(** Attribute read [self.f]. *)
Definition getattr {T A} (f : T -> A) : Method T A :=
  fun self => (Ok (f self), self).

(** Attribute write [self.f = v], with [upd] the record update.  (The
    constructors apart, no method of the file writes an attribute.) *)
Definition setattr {T A} (upd : A -> T -> T) (v : A) : Method T unit :=
  fun self => (Ok tt, upd v self).

(** A computation that does not touch [self]. *)
Definition lift {T A} (r : result A) : Method T A := fun self => (r, self).

(** The value a call returns, and the object it leaves behind. *)
Definition returned {T A} (m : Method T A) (self : T) : result A := fst (m self).
Definition after {T A} (m : Method T A) (self : T) : T := snd (m self).

(** *** Numbers *)

(** [float(n)] for a Python integer: correctly rounded, and an
    [OverflowError] when the integer is beyond the binary64 range. *)
Definition Z2float (n : Z) : float :=
  SF2Prim (binary_normalize prec emax n 0 false).

Definition float_of_int (n : Z) : result float :=
  let x := Z2float n in
  if is_infinity x then Raise (OverflowError "int too large to convert to float")
  else Ok x.

(** [x / y] on floats: Python raises on a zero divisor instead of
    producing an infinity or a NaN. *)
Definition truediv (x y : float) : result float :=
  if (y =? 0)%float then Raise (ZeroDivisionError "float division by zero")
  else Ok (x / y)%float.

(** An integer as an unnormalised binary float, mantissa [|n|] and
    exponent 0. *)
Definition int_raw (n : Z) : spec_float :=
  match n with
  | Z0 => S754_zero false
  | Zpos p => S754_finite false p 0
  | Zneg p => S754_finite true p 0
  end.

(** [a / b] on integers: the exact quotient rounded once, to nearest
    even. *)
Definition int_truediv (a b : Z) : result float :=
  if b =? 0 then Raise (ZeroDivisionError "division by zero")
  else
    let q := SF2Prim (SFdiv prec emax (int_raw a) (int_raw b)) in
    if is_infinity q then Raise (OverflowError "integer division result too large for a float")
    else Ok q.

(** A finite float as an exact fraction [n / d] with [d > 0]
    ([float.as_integer_ratio] up to reduction); [None] on NaN and on
    the infinities. *)
Definition integer_ratio (x : float) : option (Z * Z) :=
  match Prim2SF x with
  | S754_zero _ => Some (0, 1)
  | S754_finite s m e =>
      let n := if s then Zneg m else Zpos m in
      Some (if 0 <=? e then (n * 2 ^ e, 1) else (n, 2 ^ (- e)))
  | S754_infinity _ | S754_nan => None
  end.

Definition to_integer (round : Z -> Z -> Z) (x : float) : result Z :=
  if is_nan x then Raise (ValueError [Lit "cannot convert float NaN to integer"])
  else match integer_ratio x with
       | Some (n, d) => Ok (round n d)
       | None => Raise (OverflowError "cannot convert float infinity to integer")
       end.

(** [math.trunc(x)] and [int(x)]: the integral part, toward zero. *)
Definition math_trunc : float -> result Z := to_integer Z.quot.
Definition int_of : float -> result Z := math_trunc.

(** [math.ceil(x)]: the least integer not below [x]. *)
Definition math_ceil : float -> result Z :=
  to_integer (fun n d => - ((- n) / d)).

End Py.

Export Py.

Declare Scope py_scope.
Delimit Scope py_scope with py.
Notation "x <- m ;; k" := (mbind m (fun x => k))
  (at level 61, m at next level, right associativity) : py_scope.
Notation "' p <- m ;; k" := (mbind m (fun p => k))
  (at level 61, p pattern, m at next level, right associativity) : py_scope.
Notation "x <~ r ;; k" := (bind r (fun x => k))
  (at level 61, r at next level, right associativity) : py_scope.
#[local] Open Scope py_scope.

(* ================================================================== *)
(** ** The numpy operations the segments use *)
(* ================================================================== *)

(** Arrays are one-dimensional float64 arrays, given by their elements.
    The operations below are what numpy computes on the contents.  One
    piece of array state besides the contents matters to the segments:
    whether an array owns its buffer ([flags.owndata]), because the
    in-place [ndarray.resize] refuses to change the size of an array
    that does not.  It is tracked for the one array that is resized,
    the result of [np.tile].  Running out of memory is not modelled. *)
Module np.

Abbreviation ndarray := (list float).

Definition size (a : ndarray) : Z := Z.of_nat (List.length a).

Definition negative_dimensions {A} : result A :=
  Raise (ValueError [Lit "negative dimensions are not allowed"]).

(** [np.zeros([n])] *)
Definition zeros (n : Z) : result ndarray :=
  if n <? 0 then negative_dimensions else Ok (repeat 0%float (Z.to_nat n)).

(** [np.full((n), v)] *)
Definition full (n : Z) (v : float) : result ndarray :=
  if n <? 0 then negative_dimensions else Ok (repeat v (Z.to_nat n)).

(** A slice bound as Python clips it against the length. *)
Definition clip (len i : Z) : Z :=
  if i <? 0 then Z.max (len + i) 0 else Z.min i len.

(** [a[:stop] = v] and [a[start:] = v] with a scalar [v]. *)
Definition fill_upto (a : ndarray) (stop : Z) (v : float) : ndarray :=
  let k := Z.to_nat (clip (size a) stop) in
  repeat v k ++ skipn k a.

Definition fill_from (a : ndarray) (start : Z) (v : float) : ndarray :=
  let k := Z.to_nat (clip (size a) start) in
  firstn k a ++ repeat v (List.length a - k).

(** [np.tile(a, reps)] for an integer [reps]: the contents.  An empty
    [a] is never repeated, so a negative count is only refused when [a]
    has elements. *)
Definition tile (a : ndarray) (reps : Z) : result ndarray :=
  match a with
  | [] => Ok []
  | _ =>
      if reps <? 0 then negative_dimensions
      else Ok (concat (repeat a (Z.to_nat reps)))
  end.

(** [np.tile(a, reps).flags.owndata].  With [reps == 1] numpy returns
    [np.array(a, copy=True)], which owns its buffer; with any other
    count it returns [c.reshape(shape_out)], a view of the buffer that
    [ndarray.repeat] filled (of [a] itself when [a] is empty), which
    does not. *)
Definition tile_owndata (reps : Z) : bool := reps =? 1.

(** [a.resize(n)], in place, for an array whose [flags.owndata] is
    [owndata]: the contents after the call.  A negative size is
    refused; the size the array already has changes nothing; another
    size is refused for an array that does not own its buffer;
    otherwise the first [n] elements are kept and new elements are
    zeros. *)
Definition resize (owndata : bool) (a : ndarray) (n : Z) : result ndarray :=
  if n <? 0 then negative_dimensions
  else if n =? size a then Ok a
  else if owndata then
    Ok (firstn (Z.to_nat n) a ++ repeat 0%float (Z.to_nat n - List.length a))
  else Raise (ValueError [Lit "cannot resize this array: it does not own its data"]).

(** [np.arange(0, n)] as float64. *)
Definition arange (n : Z) : ndarray :=
  map (fun i => Z2float (Z.of_nat i)) (seq 0 (Z.to_nat n)).

(** [a[-1] = v] *)
Definition set_last (a : ndarray) (v : float) : ndarray :=
  match a with
  | [] => []
  | _ => removelast a ++ [v]
  end.

(** [np.linspace(start, stop, num)], end point included, as numpy
    computes it: the indices [0 .. num - 1] times the step
    [(stop - start) / (num - 1)], plus [start], the last sample then
    overwritten with [stop].  A step that rounds to zero makes numpy
    divide the indices before it multiplies them; with fewer than two
    samples there is no step and the indices are multiplied by
    [stop - start]. *)
Definition linspace (start stop : float) (num : Z) : result ndarray :=
  if num <? 0 then
    Raise (ValueError [Lit "Number of samples, "; Fmt (VInt num);
                       Lit ", must be non-negative."])
  else
    let div := num - 1 in
    let delta := (stop - start)%float in
    let y := arange num in
    let y :=
      if 0 <? div then
        let step := (delta / Z2float div)%float in
        if (step =? 0)%float
        then map (fun v => (v / Z2float div * delta)%float) y
        else map (fun v => (v * step)%float) y
      else map (fun v => (v * delta)%float) y in
    let y := map (fun v => (v + start)%float) y in
    Ok (if 1 <? num then set_last y stop else y).

(** [v * a] for a scalar [v]. *)
Definition scale (v : float) (a : ndarray) : ndarray :=
  map (fun x => (v * x)%float) a.

End np.

(* ================================================================== *)
(** ** The records handed over by the file parser *)
(* ================================================================== *)

Record StimulationRecord : Type := {
  SampleInterval : float
}.

Record ChannelRecordStimulus : Type := {
  Square_PosAmpl : float;
  Square_NegAmpl : float;
  Square_Cycle : float;
  Square_DurFactor : float;
  Square_BaseIncr : float;
  Square_Kind : string;
  Chirp_Amplitude : float;
  Chirp_StartFreq : float;
  Chirp_EndFreq : float;
  Chirp_Kind : string;
  Holding : float
}.

(** The field [Class] of the source is spelled [Class_] here. *)
Record StimSegmentRecord : Type := {
  Class_ : string;
  DurationIncMode : string;
  DeltaTFactor : float;
  DeltaTIncrement : float;
  VoltageIncMode : string;
  DeltaVFactor : float;
  DeltaVIncrement : float;
  Duration : float;
  VoltageSource : string;
  Voltage : float
}.

(* ================================================================== *)
(** ** class Segment *)
(* ================================================================== *)

(** The dictionaries [xDelta] and [yDelta]. *)
Record deltaDict : Type := {
  mode : string;
  factor : float;
  inc : float
}.

Module Segment.

(** The attributes [Segment.__init__] sets. *)
Record t : Type := {
  xDelta : deltaDict;
  yDelta : deltaDict;
  duration : float;
  sampleInterval : float;
  amplitudeScale : float
}.

(** What the methods of the base class need from an instance of a
    derived class: the base attributes, and [self.amplitude], which
    only some of the derived classes set. *)
Class Object (T : Type) : Type := {
  super : T -> t;
  self_amplitude : T -> result float
}.

Definition __init__ (stimRec : StimulationRecord) (channelRec : ChannelRecordStimulus)
    (segmentRec : StimSegmentRecord) : t :=
  {| xDelta := {| mode := DurationIncMode segmentRec;
                  factor := DeltaTFactor segmentRec;
                  inc := DeltaTIncrement segmentRec |};
     yDelta := {| mode := VoltageIncMode segmentRec;
                  factor := DeltaVFactor segmentRec;
                  inc := DeltaVIncrement segmentRec |};
     duration := Duration segmentRec;
     sampleInterval := SampleInterval stimRec;
     amplitudeScale := 1e3 |}.

(** Static method: is the delta mode active? *)
Definition _hasDelta (d : deltaDict) : bool :=
  negb (factor d =? 1.0)%float || negb (inc d =? 0.0)%float.

(** Static method: apply the delta mode to [val] if it is active. *)
Definition _applyDelta (d : deltaDict) (val : float) (sweepNo : Z) : result float :=
  if negb (_hasDelta d) then Ok val
  else if (mode d =? "Inc")%string then
    n <~ float_of_int sweepNo ;;
    Ok (val + inc d * n)%float
  else if (mode d =? "LogInc")%string then
    Ok nan
  else
    Raise (ValueError [Lit "Increment mode "; Fmt (VStr (mode d)); Lit " is not supported."]).

Section Methods.
Context {T : Type} `{Object T}.

Definition applyAmplitudeScale (amplitude : float) : Method T float :=
  scale <- getattr (fun self => amplitudeScale (super self)) ;;
  ret (amplitude * scale)%float.

Definition _step (xValue yValue : float) (sweepNo : Z) : Method T (float * float) :=
  xd <- getattr (fun self => xDelta (super self)) ;;
  x <- lift (_applyDelta xd xValue sweepNo) ;;
  yd <- getattr (fun self => yDelta (super self)) ;;
  y <- lift (_applyDelta yd yValue sweepNo) ;;
  ret (x, y).

Definition hasXDelta : Method T bool :=
  xd <- getattr (fun self => xDelta (super self)) ;;
  ret (_hasDelta xd).

Definition hasYDelta : Method T bool :=
  yd <- getattr (fun self => yDelta (super self)) ;;
  ret (_hasDelta yd).

Definition doStepping (sweepNo : Z) : Method T (float * float) :=
  d <- getattr (fun self => duration (super self)) ;;
  a <- (fun self => (self_amplitude self, self)) ;;
  ' (duration, amplitude) <- _step d a sweepNo ;;
  scaled <- applyAmplitudeScale amplitude ;;
  ret (duration, scaled).

Definition calculateNumberOfPoints (duration : float) : Method T Z :=
  dt <- getattr (fun self => sampleInterval (super self)) ;;
  q <- lift (truediv duration dt) ;;
  lift (math_trunc q).

End Methods.

End Segment.


(* ================================================================== *)
(** ** class SquareSegment(Segment) *)
(* ================================================================== *)

Module SquareSegment.

Record t : Type := {
  base : Segment.t;
  posAmp : float;
  negAmp : float;
  cycleDuration : float;
  durationFactor : float;
  baseIncr : float;
  kind : string
}.

(** The class never sets [self.amplitude]. *)
#[global] Instance object : Segment.Object t := {|
  Segment.super := base;
  Segment.self_amplitude := fun _ => Raise (AttributeError "SquareSegment" "amplitude")
|}.

Definition dict_of_delta (d : deltaDict) : value :=
  VDelta (mode d) (factor d) (inc d).

(** The instance attributes by name, once [__init__] has assigned them
    all.  (Methods are not listed: no attribute read of this class
    names one.) *)
Definition __dict__ (self : t) : list (string * value) :=
  [ ("xDelta", dict_of_delta (Segment.xDelta (base self)));
    ("yDelta", dict_of_delta (Segment.yDelta (base self)));
    ("duration", VFloat (Segment.duration (base self)));
    ("sampleInterval", VFloat (Segment.sampleInterval (base self)));
    ("amplitudeScale", VFloat (Segment.amplitudeScale (base self)));
    ("posAmp", VFloat (posAmp self));
    ("negAmp", VFloat (negAmp self));
    ("cycleDuration", VFloat (cycleDuration self));
    ("durationFactor", VFloat (durationFactor self));
    ("baseIncr", VFloat (baseIncr self));
    ("kind", VStr (kind self)) ]%string.

(** [self.<name>] for a name given as text. *)
Definition attribute (self : t) (name : string) : result value :=
  match find (fun kv => (fst kv =? name)%string) (__dict__ self) with
  | Some kv => Ok (snd kv)
  | None => Raise (AttributeError "SquareSegment" name)
  end.

Definition __init__ (stimRec : StimulationRecord) (channelRec : ChannelRecordStimulus)
    (segmentRec : StimSegmentRecord) : result t :=
  let self :=
    {| base := Segment.__init__ stimRec channelRec segmentRec;
       posAmp := Square_PosAmpl channelRec;
       negAmp := Square_NegAmpl channelRec;
       cycleDuration := Square_Cycle channelRec;
       durationFactor := Square_DurFactor channelRec;
       baseIncr := Square_BaseIncr channelRec;
       kind := Square_Kind channelRec |} in
  if negb (baseIncr self =? 0)%float then
    Raise (ValueError [Lit "Unsupported baseIncr="; Fmt (VFloat (baseIncr self))])
  else if negb (durationFactor self =? 0)%float then
    Raise (ValueError [Lit "Unsupported durationFactor="; Fmt (VFloat (durationFactor self))])
  else if negb (kind self =? "Common Frequency")%string then
    (* the message is formatted first, and it reads [self.squareKind] *)
    v <~ attribute self "squareKind" ;;
    Raise (ValueError [Lit "Unsupported squareKind="; Fmt v])
  else
    hx <~ returned Segment.hasXDelta self ;;
    hy <~ (if hx then Ok true else returned Segment.hasYDelta self) ;;
    if hy then
      Raise (ValueError [Lit "Delta modes are not supported."])
    else if negb (0 <? cycleDuration self)%float then
      Raise (ValueError [Lit "Invalid cycle duration."])
    else Ok self.

Definition createArray (sweep : Z) : Method t np.ndarray :=
  d <- getattr (fun self => Segment.duration (base self)) ;;
  numPoints <- Segment.calculateNumberOfPoints d ;;
  c <- getattr cycleDuration ;;
  dt <- getattr (fun self => Segment.sampleInterval (base self)) ;;
  q <- lift (truediv c dt) ;;
  numPointsCycle <- lift (math_trunc q) ;;
  oneCycle <- lift (np.zeros numPointsCycle) ;;
  h <- lift (int_truediv numPointsCycle 2) ;;
  halfCycleLength <- lift (int_of h) ;;
  p <- getattr posAmp ;;
  hi <- Segment.applyAmplitudeScale p ;;
  let oneCycle := np.fill_upto oneCycle halfCycleLength hi in
  p <- getattr posAmp ;;
  lo <- Segment.applyAmplitudeScale (- p)%float ;;
  let oneCycle := np.fill_from oneCycle halfCycleLength lo in
  d <- getattr (fun self => Segment.duration (base self)) ;;
  c <- getattr cycleDuration ;;
  r <- lift (truediv d c) ;;
  numCycles <- lift (math_ceil r) ;;
  segment <- lift (np.tile oneCycle numCycles) ;;
  segment <- lift (np.resize (np.tile_owndata numCycles) segment numPoints) ;;
  ret segment.

End SquareSegment.

(* ================================================================== *)
(** ** class ConstantSegment(Segment) and class RampSegment(Segment) *)
(* ================================================================== *)

(** Both classes resolve their amplitude the same way. *)
Definition voltage_source (channelRec : ChannelRecordStimulus) (segmentRec : StimSegmentRecord)
    : result float :=
  if (VoltageSource segmentRec =? "Constant")%string then Ok (Voltage segmentRec)
  else if (VoltageSource segmentRec =? "Hold")%string then Ok (Holding channelRec)
  else Raise (ValueError [Lit "Unsupported voltage source "; Fmt (VStr (VoltageSource segmentRec))]).

Module ConstantSegment.

Record t : Type := {
  base : Segment.t;
  amplitude : float
}.

#[global] Instance object : Segment.Object t := {|
  Segment.super := base;
  Segment.self_amplitude := fun self => Ok (amplitude self)
|}.

Definition __init__ (stimRec : StimulationRecord) (channelRec : ChannelRecordStimulus)
    (segmentRec : StimSegmentRecord) : result t :=
  a <~ voltage_source channelRec segmentRec ;;
  Ok {| base := Segment.__init__ stimRec channelRec segmentRec; amplitude := a |}.

Definition createArray (sweep : Z) : Method t np.ndarray :=
  ' (duration, amplitude) <- Segment.doStepping sweep ;;
  numPoints <- Segment.calculateNumberOfPoints duration ;;
  lift (np.full numPoints amplitude).

End ConstantSegment.

Module RampSegment.

Record t : Type := {
  base : Segment.t;
  amplitude : float
}.

#[global] Instance object : Segment.Object t := {|
  Segment.super := base;
  Segment.self_amplitude := fun self => Ok (amplitude self)
|}.

Definition __init__ (stimRec : StimulationRecord) (channelRec : ChannelRecordStimulus)
    (segmentRec : StimSegmentRecord) : result t :=
  a <~ voltage_source channelRec segmentRec ;;
  Ok {| base := Segment.__init__ stimRec channelRec segmentRec; amplitude := a |}.

Definition createArray (sweep : Z) : Method t np.ndarray :=
  ' (duration, amplitude) <- Segment.doStepping sweep ;;
  numPoints <- Segment.calculateNumberOfPoints duration ;;
  lift (np.linspace 0.0 amplitude numPoints).

End RampSegment.

(* ================================================================== *)
(** ** class ChirpSegment(Segment) *)
(* ================================================================== *)

(** The signature of [scipy.signal.chirp(t, f0, t1, f1, method, phi)]. *)
Definition chirp_function : Type :=
  np.ndarray -> float -> float -> float -> string -> float -> result np.ndarray.

Module ChirpSegment.

Record t : Type := {
  base : Segment.t;
  amplitude : float;
  startFreq : float;
  endFreq : float;
  kind : string
}.

#[global] Instance object : Segment.Object t := {|
  Segment.super := base;
  Segment.self_amplitude := fun self => Ok (amplitude self)
|}.

Definition __init__ (stimRec : StimulationRecord) (channelRec : ChannelRecordStimulus)
    (segmentRec : StimSegmentRecord) : result t :=
  let self :=
    {| base := Segment.__init__ stimRec channelRec segmentRec;
       amplitude := Chirp_Amplitude channelRec;
       startFreq := Chirp_StartFreq channelRec;
       endFreq := Chirp_EndFreq channelRec;
       kind := Chirp_Kind channelRec |} in
  if negb (kind self =? "Exponential")%string && negb (kind self =? "Linear")%string then
    Raise (ValueError [Lit "The chirp kind "; Fmt (VStr (kind self)); Lit " is not supported."])
  else Ok self.

Section WithScipy.

(** The waveform generator is scipy's; the segment only chooses its
    arguments. *)
Variable chirp : chirp_function.

Definition createArray (sweep : Z) : Method t np.ndarray :=
  ' (duration, amplitude) <- Segment.doStepping sweep ;;
  numPoints <- Segment.calculateNumberOfPoints duration ;;
  x <- lift (np.linspace 0 duration numPoints) ;;
  k <- getattr kind ;;
  method <- lift (if (k =? "Exponential")%string then Ok "logarithmic"%string
                  else if (k =? "Linear")%string then Ok "linear"%string
                  else Raise (UnboundLocalError "method")) ;;
  f0 <- getattr startFreq ;;
  f1 <- getattr endFreq ;;
  wave <- lift (chirp x f0 duration f1 method (-90)%float) ;;
  ret (np.scale amplitude wave).

End WithScipy.

End ChirpSegment.

(* ================================================================== *)
(** ** getSegmentClass and the dispatch of createArray *)
(* ================================================================== *)

Inductive segment : Type :=
| Square (s : SquareSegment.t)
| Constant (s : ConstantSegment.t)
| Ramp (s : RampSegment.t)
| Chirp (s : ChirpSegment.t).

Definition getSegmentClass (stimRec : StimulationRecord) (channelRec : ChannelRecordStimulus)
    (segmentRec : StimSegmentRecord) : result segment :=
  if (Class_ segmentRec =? "Squarewave")%string then
    s <~ SquareSegment.__init__ stimRec channelRec segmentRec ;; Ok (Square s)
  else if (Class_ segmentRec =? "Constant")%string then
    s <~ ConstantSegment.__init__ stimRec channelRec segmentRec ;; Ok (Constant s)
  else if (Class_ segmentRec =? "Ramp")%string then
    s <~ RampSegment.__init__ stimRec channelRec segmentRec ;; Ok (Ramp s)
  else if (Class_ segmentRec =? "Chirpwave")%string then
    s <~ ChirpSegment.__init__ stimRec channelRec segmentRec ;; Ok (Chirp s)
  else
    Raise (ValueError [Lit "Unsupported stim segment class "; Fmt (VStr (Class_ segmentRec))]).

(** Run a method of the variant on the object inside [seg]. *)
Definition on {T A} (wrap : T -> segment) (m : Method T A) (self : T) : result A * segment :=
  let (r, self') := m self in (r, wrap self').

(** [seg.createArray(sweep)] by dynamic dispatch. *)
Definition createArray (chirp : chirp_function) (sweep : Z) : Method segment np.ndarray :=
  fun seg =>
    match seg with
    | Square s => on Square (SquareSegment.createArray sweep) s
    | Constant s => on Constant (ConstantSegment.createArray sweep) s
    | Ramp s => on Ramp (RampSegment.createArray sweep) s
    | Chirp s => on Chirp (ChirpSegment.createArray chirp sweep) s
    end.

(** [seg.doStepping(sweepNo)] and [seg.calculateNumberOfPoints(duration)],
    the inherited methods, on a segment of any class. *)
Definition doStepping (sweepNo : Z) : Method segment (float * float) :=
  fun seg =>
    match seg with
    | Square s => on Square (Segment.doStepping sweepNo) s
    | Constant s => on Constant (Segment.doStepping sweepNo) s
    | Ramp s => on Ramp (Segment.doStepping sweepNo) s
    | Chirp s => on Chirp (Segment.doStepping sweepNo) s
    end.

Definition calculateNumberOfPoints (duration : float) : Method segment Z :=
  fun seg =>
    match seg with
    | Square s => on Square (Segment.calculateNumberOfPoints duration) s
    | Constant s => on Constant (Segment.calculateNumberOfPoints duration) s
    | Ramp s => on Ramp (Segment.calculateNumberOfPoints duration) s
    | Chirp s => on Chirp (Segment.calculateNumberOfPoints duration) s
    end.

(** [self.amplitude] on a segment of any class. *)
Definition amplitude_of (seg : segment) : result float :=
  match seg with
  | Square s => Segment.self_amplitude s
  | Constant s => Segment.self_amplitude s
  | Ramp s => Segment.self_amplitude s
  | Chirp s => Segment.self_amplitude s
  end.

(* ================================================================== *)
(** ** Notions used to state the properties *)
(* ================================================================== *)

(** A method body is read-only when every call hands back the object it
    was given. *)
Definition read_only {T A} (m : Method T A) : Prop :=
  forall self, after m self = self.

(** A shift record with nothing shifted out yet. *)
Definition exact (m : Z) : shr_record := {| shr_m := m; shr_r := false; shr_s := false |}.

(** Normal form [m * 2 ^ t] of a positive integer [p], with [m] on 53
    bits; the equation is cleared of the negative power. *)
Definition normal_form (p m : positive) (t : Z) : Prop :=
  Z.log2 (Zpos m) = 52 /\ Zpos p * 2 ^ Z.max 0 (- t) = Zpos m * 2 ^ Z.max 0 t.

(** The exact value of a finite float, as a rational. *)
Definition exact_value (x : float) : option Q :=
  match integer_ratio x with
  | Some (n, d) => Some (n # Z.to_pos d)
  | None => None
  end.

(** Zero, or a positive finite value, or plus infinity. *)
Definition SF_nonneg (x : spec_float) : Prop :=
  match x with
  | S754_zero _ => True
  | S754_infinity s | S754_finite s _ _ => s = false
  | S754_nan => False
  end.

(** The same segment with another value in [negAmp]. *)
Definition with_negAmp (v : float) (self : SquareSegment.t) : SquareSegment.t :=
  {| SquareSegment.base := SquareSegment.base self;
     SquareSegment.posAmp := SquareSegment.posAmp self;
     SquareSegment.negAmp := v;
     SquareSegment.cycleDuration := SquareSegment.cycleDuration self;
     SquareSegment.durationFactor := SquareSegment.durationFactor self;
     SquareSegment.baseIncr := SquareSegment.baseIncr self;
     SquareSegment.kind := SquareSegment.kind self |}.

(** The local variables of [SquareSegment.createArray], each as the
    part of the body that computes it; [square_createArray_eq] below
    shows that the body is their sequence. *)
Module SquareLocals.
Import SquareSegment.

Definition numPoints (self : t) : result Z :=
  returned (Segment.calculateNumberOfPoints (Segment.duration (base self))) self.

Definition numPointsCycle (self : t) : result Z :=
  q <~ truediv (cycleDuration self) (Segment.sampleInterval (base self)) ;;
  math_trunc q.

Definition halfCycleLength (numPointsCycle : Z) : result Z :=
  h <~ int_truediv numPointsCycle 2 ;; int_of h.

Definition oneCycle (self : t) (numPointsCycle : Z) : result np.ndarray :=
  zeros <~ np.zeros numPointsCycle ;;
  half <~ halfCycleLength numPointsCycle ;;
  hi <~ returned (Segment.applyAmplitudeScale (posAmp self)) self ;;
  lo <~ returned (Segment.applyAmplitudeScale (- posAmp self)%float) self ;;
  Ok (np.fill_from (np.fill_upto zeros half hi) half lo).

Definition numCycles (self : t) : result Z :=
  r <~ truediv (Segment.duration (base self)) (cycleDuration self) ;;
  math_ceil r.

Definition tiled (self : t) : result np.ndarray :=
  k <~ numPointsCycle self ;;
  cycle <~ oneCycle self k ;;
  m <~ numCycles self ;;
  np.tile cycle m.

End SquareLocals.

(** A segment that came out of its constructor. *)
Definition square_constructed (self : SquareSegment.t) : Prop :=
  exists stimRec channelRec segmentRec,
    SquareSegment.__init__ stimRec channelRec segmentRec = Ok self.

(** Sample [i] of [np.linspace(start, stop, num)] as first computed,
    that is before the last sample is overwritten with [stop]. *)
Definition linspace_sample (start stop : float) (num i : Z) : float :=
  let div := num - 1 in
  let delta := (stop - start)%float in
  let v := Z2float i in
  ((if (0 <? div)%Z then
      let step := (delta / Z2float div)%float in
      if (step =? 0)%float then (v / Z2float div * delta)%float else (v * step)%float
    else (v * delta)%float) + start)%float.

(** The base-class attributes of a segment, and the name of its class
    in the segment record. *)
Definition base_of (seg : segment) : Segment.t :=
  match seg with
  | Square s => SquareSegment.base s
  | Constant s => ConstantSegment.base s
  | Ramp s => RampSegment.base s
  | Chirp s => ChirpSegment.base s
  end.

Definition class_name (seg : segment) : string :=
  match seg with
  | Square _ => "Squarewave"
  | Constant _ => "Constant"
  | Ramp _ => "Ramp"
  | Chirp _ => "Chirpwave"
  end.

(** The message of [getSegmentClass] for a class it does not know. *)
Definition unsupported_class (segmentRec : StimSegmentRecord) : exn :=
  ValueError [Lit "Unsupported stim segment class "; Fmt (VStr (Class_ segmentRec))].

(** Two floats that are the same value, or two zeros (of either sign). *)
Definition same_or_zeros (x y : float) : Prop :=
  x = y \/ ((x =? 0)%float = true /\ (y =? 0)%float = true).

(** A chirp segment that came out of its constructor. *)
Definition chirp_constructed (self : ChirpSegment.t) : Prop :=
  exists stimRec channelRec segmentRec,
    ChirpSegment.__init__ stimRec channelRec segmentRec = Ok self.

(** The sweep method handed to [scipy.signal.chirp] for a chirp kind. *)
Definition chirp_method (kind : string) : string :=
  if (kind =? "Exponential")%string then "logarithmic" else "linear".

(** Sample [i] of a square wave of [k] samples per cycle over [m]
    cycles: the scaled [posAmp] in the first [k / 2] samples of each
    cycle, its scaled negation in the others, and [0.0] past the last
    cycle. *)
Definition square_sample (self : SquareSegment.t) (k m i : Z) : float :=
  if i <? k * m then
    if i mod k <? k / 2
    then (SquareSegment.posAmp self * Segment.amplitudeScale (SquareSegment.base self))%float
    else (- SquareSegment.posAmp self * Segment.amplitudeScale (SquareSegment.base self))%float
  else 0%float.

(** *** Sample records *)

Definition sample_stim (dt : float) : StimulationRecord :=
  {| SampleInterval := dt |}.

Definition sample_channel (cycle : float) (squareKind : string) : ChannelRecordStimulus :=
  {| Square_PosAmpl := 0.5;
     Square_NegAmpl := -0.25;
     Square_Cycle := cycle;
     Square_DurFactor := 0;
     Square_BaseIncr := 0;
     Square_Kind := squareKind;
     Chirp_Amplitude := 0.5;
     Chirp_StartFreq := 1;
     Chirp_EndFreq := 10;
     Chirp_Kind := "Linear";
     Holding := -0.0625 |}.

(** A segment record of class [cls], with the given duration and the
    given stepping of the duration and of the amplitude. *)
Definition sample_segment (cls : string) (d : float) (xd yd : deltaDict) : StimSegmentRecord :=
  {| Class_ := cls;
     DurationIncMode := mode xd;
     DeltaTFactor := factor xd;
     DeltaTIncrement := inc xd;
     VoltageIncMode := mode yd;
     DeltaVFactor := factor yd;
     DeltaVIncrement := inc yd;
     Duration := d;
     VoltageSource := "Constant";
     Voltage := 0.25 |}.

Definition no_delta : deltaDict := {| mode := "Inc"; factor := 1; inc := 0 |}.

(** The square segment of the given cycle duration, sampled every
    millisecond for [d] seconds. *)
Definition sample_square (cycle d : float) : SquareSegment.t :=
  {| SquareSegment.base :=
       {| Segment.xDelta := no_delta;
          Segment.yDelta := no_delta;
          Segment.duration := d;
          Segment.sampleInterval := 0.001;
          Segment.amplitudeScale := 1e3 |};
     SquareSegment.posAmp := 0.5;
     SquareSegment.negAmp := -0.25;
     SquareSegment.cycleDuration := cycle;
     SquareSegment.durationFactor := 0;
     SquareSegment.baseIncr := 0;
     SquareSegment.kind := "Common Frequency" |}.

(** A constant segment sampled every millisecond, of duration [d], with
    the given stepping. *)
Definition sample_constant (d : float) (xd yd : deltaDict) : ConstantSegment.t :=
  {| ConstantSegment.base :=
       {| Segment.xDelta := xd;
          Segment.yDelta := yd;
          Segment.duration := d;
          Segment.sampleInterval := 0.001;
          Segment.amplitudeScale := 1e3 |};
     ConstantSegment.amplitude := 0.25 |}.

(** A ramp segment sampled every millisecond, of duration [d], with the
    given stepping. *)
Definition sample_ramp (d : float) (xd yd : deltaDict) : RampSegment.t :=
  {| RampSegment.base :=
       {| Segment.xDelta := xd;
          Segment.yDelta := yd;
          Segment.duration := d;
          Segment.sampleInterval := 0.001;
          Segment.amplitudeScale := 1e3 |};
     RampSegment.amplitude := 0.25 |}.

(** The waveform function that stands for scipy's in the examples: a
    waveform of ones, one for each time. *)
Definition sample_chirp_function : chirp_function :=
  fun t f0 t1 f1 method phi => Ok (map (fun _ => 1%float) t).

Definition sample_chirp_segment (kind : string) (d : float) (xd yd : deltaDict) : ChirpSegment.t :=
  {| ChirpSegment.base :=
       {| Segment.xDelta := xd;
          Segment.yDelta := yd;
          Segment.duration := d;
          Segment.sampleInterval := 0.001;
          Segment.amplitudeScale := 1e3 |};
     ChirpSegment.amplitude := 0.5;
     ChirpSegment.startFreq := 1;
     ChirpSegment.endFreq := 10;
     ChirpSegment.kind := kind |}.

(* ================================================================== *)
(** * Properties *)
(* ================================================================== *)

(** ** Running method bodies *)

Lemma read_only_ret {T A} (a : A) : read_only (@ret T A a).
Proof. intro self; reflexivity. Qed.

Lemma read_only_getattr {T A} (f : T -> A) : read_only (getattr f).
Proof. intro self; reflexivity. Qed.

Lemma read_only_lift {T A} (r : result A) : read_only (@lift T A r).
Proof. intro self; reflexivity. Qed.

Lemma read_only_mbind {T A B} (m : Method T A) (k : A -> Method T B) :
  read_only m -> (forall a, read_only (k a)) -> read_only (mbind m k).
Proof.
  intros Hm Hk self. unfold after, mbind.
  specialize (Hm self). unfold after in Hm.
  destruct (m self) as [[a | e] self']; cbn in Hm; subst self'.
  - apply Hk.
  - reflexivity.
Qed.

Lemma read_only_pair {T A B C} (k : A -> B -> Method T C) (p : A * B) :
  (forall a b, read_only (k a b)) -> read_only (let (a, b) := p in k a b).
Proof. destruct p; auto. Qed.

Create HintDb read_only.
#[export] Hint Resolve read_only_ret read_only_getattr read_only_lift : read_only.

Ltac read_only :=
  repeat first
    [ apply read_only_mbind; [ | intros ]
    | apply read_only_pair; intros
    | solve [ auto with read_only ]
    | intro; reflexivity ].

(** The value of a sequence of two steps, when the first one is
    read-only. *)
Lemma returned_mbind {T A B} (m : Method T A) (k : A -> Method T B) (self : T) :
  read_only m ->
  returned (mbind m k) self = bind (returned m self) (fun a => returned (k a) self).
Proof.
  intros Hm. unfold returned, mbind. specialize (Hm self). unfold after in Hm.
  destruct (m self) as [[a | e] self']; cbn in *; subst; reflexivity.
Qed.

Lemma returned_getattr {T A B} (f : T -> A) (k : A -> Method T B) (self : T) :
  returned (mbind (getattr f) k) self = returned (k (f self)) self.
Proof. reflexivity. Qed.

Lemma returned_lift {T A B} (r : result A) (k : A -> Method T B) (self : T) :
  returned (mbind (lift r) k) self = bind r (fun a => returned (k a) self).
Proof. destruct r; reflexivity. Qed.

Lemma returned_ret {T A} (a : A) (self : T) : returned (ret a) self = Ok a.
Proof. reflexivity. Qed.

Lemma bind_Ok {A B} (r : result A) (k : A -> result B) (b : B) :
  bind r k = Ok b -> exists a, r = Ok a /\ k a = Ok b.
Proof. destruct r as [a | e]; cbn; [ eauto | discriminate ]. Qed.

(** ** The base class is read-only *)

Section BaseClass.
Context {T : Type} `{Segment.Object T}.

Lemma read_only_applyAmplitudeScale (a : float) :
  read_only (Segment.applyAmplitudeScale (T := T) a).
Proof. unfold Segment.applyAmplitudeScale. read_only. Qed.

Lemma read_only_step (x y : float) (sweepNo : Z) :
  read_only (Segment._step (T := T) x y sweepNo).
Proof. unfold Segment._step. read_only. Qed.

Lemma read_only_doStepping (sweepNo : Z) :
  read_only (Segment.doStepping (T := T) sweepNo).
Proof.
  unfold Segment.doStepping. read_only.
Qed.

Lemma read_only_calculateNumberOfPoints (d : float) :
  read_only (Segment.calculateNumberOfPoints (T := T) d).
Proof. unfold Segment.calculateNumberOfPoints. read_only. Qed.

Lemma returned_applyAmplitudeScale (a : float) (self : T) :
  returned (Segment.applyAmplitudeScale a) self
  = Ok (a * Segment.amplitudeScale (Segment.super self))%float.
Proof. reflexivity. Qed.

Lemma returned_calculateNumberOfPoints (d : float) (self : T) :
  returned (Segment.calculateNumberOfPoints d) self
  = (q <~ truediv d (Segment.sampleInterval (Segment.super self)) ;; math_trunc q).
Proof.
  unfold Segment.calculateNumberOfPoints.
  rewrite returned_getattr, returned_lift. reflexivity.
Qed.

Lemma returned_doStepping (sweepNo : Z) (self : T) :
  returned (Segment.doStepping sweepNo) self
  = (a <~ Segment.self_amplitude self ;;
     x <~ Segment._applyDelta (Segment.xDelta (Segment.super self))
            (Segment.duration (Segment.super self)) sweepNo ;;
     y <~ Segment._applyDelta (Segment.yDelta (Segment.super self)) a sweepNo ;;
     Ok (x, (y * Segment.amplitudeScale (Segment.super self))%float)).
Proof.
  unfold Segment.doStepping, Segment._step, returned, mbind, getattr, lift, ret,
    Segment.applyAmplitudeScale.
  destruct (Segment.self_amplitude self) as [a | e]; cbn; [ | reflexivity ].
  destruct (Segment._applyDelta _ _ _) as [x | e]; cbn; [ | reflexivity ].
  destruct (Segment._applyDelta _ _ _) as [y | e]; cbn; reflexivity.
Qed.

End BaseClass.

#[export] Hint Resolve read_only_applyAmplitudeScale read_only_step read_only_doStepping
  read_only_calculateNumberOfPoints : read_only.

(** ** Facts about binary64 values *)

Lemma is_nan_Prim2SF (x : float) : is_nan x = true <-> Prim2SF x = S754_nan.
Proof.
  unfold is_nan. rewrite eqb_spec.
  destruct (Prim2SF x) as [s | s | | s m e] eqn:E; cbn.
  - split; discriminate.
  - destruct s; cbn; split; discriminate.
  - split; reflexivity.
  - unfold SFeqb, SFcompare. destruct s; rewrite Z.compare_refl, Pos.compare_cont_refl; cbn; split; discriminate.
Qed.

Lemma is_infinity_Prim2SF (x : float) :
  is_infinity x = true <-> exists s, Prim2SF x = S754_infinity s.
Proof.
  unfold is_infinity. rewrite eqb_spec, abs_spec.
  change (Prim2SF infinity) with (S754_infinity false).
  destruct (Prim2SF x) as [s | s | | s m e] eqn:E; cbn.
  - split; [ discriminate | intros [s' Hs]; discriminate ].
  - split; eauto.
  - split; [ discriminate | intros [s' Hs]; discriminate ].
  - split; [ discriminate | intros [s' Hs]; discriminate ].
Qed.

Lemma digits2_pos_size (p : positive) : digits2_pos p = Pos.size p.
Proof. induction p; cbn; congruence. Qed.

Lemma Zdigits2_log2 (p : positive) : Zdigits2 (Zpos p) = Z.log2 (Zpos p) + 1.
Proof.
  cbn. rewrite digits2_pos_size. destruct p; cbn; lia.
Qed.

Lemma iter_pos_nat {A} (f : A -> A) (n : positive) (x : A) :
  iter_pos f n x = Nat.iter (Pos.to_nat n) f x.
Proof.
  revert x. induction n as [n IH | n IH | ]; intros x; cbn [iter_pos].
  - rewrite !IH, Pos2Nat.inj_xI. 
    replace (S (2 * Pos.to_nat n))%nat with (Pos.to_nat n + (Pos.to_nat n + 1))%nat by lia.
    rewrite !Nat.iter_add. reflexivity.
  - rewrite !IH, Pos2Nat.inj_xO.
    replace (2 * Pos.to_nat n)%nat with (Pos.to_nat n + Pos.to_nat n)%nat by lia.
    rewrite Nat.iter_add. reflexivity.
  - reflexivity.
Qed.

Lemma shr_1_double (a : Z) : 0 <= a -> shr_1 (exact (2 * a)) = exact a.
Proof. destruct a as [ | p | p ]; intros Ha; try lia; reflexivity. Qed.

Lemma iter_shr_1_exact (n : nat) (a : Z) :
  0 <= a -> Nat.iter n shr_1 (exact (a * 2 ^ Z.of_nat n)) = exact a.
Proof.
  intros Ha. induction n as [ | n IH ].
  - cbn. f_equal. lia.
  - rewrite Nat.iter_succ_r.
    replace (a * 2 ^ Z.of_nat (S n)) with (2 * (a * 2 ^ Z.of_nat n))
      by (rewrite Nat2Z.inj_succ, Z.pow_succ_r; lia).
    rewrite shr_1_double by (apply Z.mul_nonneg_nonneg; [ lia | apply Z.pow_nonneg; lia ]).
    exact IH.
Qed.

Lemma shr_exact (a e j : Z) :
  0 <= a -> 0 <= j -> shr (exact (a * 2 ^ j)) e j = (exact a, e + j).
Proof.
  intros Ha Hj. destruct j as [ | p | p ]; try lia.
  - cbn. rewrite Z.mul_1_r, Z.add_0_r. reflexivity.
  - cbn [shr]. rewrite iter_pos_nat. f_equal.
    rewrite <- (positive_nat_Z p) at 1. apply iter_shr_1_exact; assumption.
Qed.

(** Rounding a 53-bit mantissa followed by [j] zero bits is exact. *)
Lemma binary_round_aux_exact (sx : bool) (m : positive) (ex j : Z) :
  Z.log2 (Zpos m) = 52 -> 0 <= j -> -1074 <= ex + j <= 971 ->
  binary_round_aux prec emax sx (Zpos m * 2 ^ j) ex loc_Exact = S754_finite sx m (ex + j).
Proof.
  intros Hm Hj He.
  assert (Hpos : 0 < Zpos m * 2 ^ j) by (apply Z.mul_pos_pos; [ lia | apply Z.pow_pos_nonneg; lia ]).
  assert (Hd : Zdigits2 (Zpos m * 2 ^ j) = 53 + j).
  { destruct (Zpos m * 2 ^ j) as [ | q | q ] eqn:E; try lia.
    rewrite Zdigits2_log2, <- E, <- Z.shiftl_mul_pow2, Z.log2_shiftl by lia. lia. }
  unfold binary_round_aux, shr_fexp. rewrite Hd.
  replace (fexp prec emax (53 + j + ex) - ex) with j
    by (unfold fexp, SpecFloat.emin, prec, emax; lia).
  change (shr_record_of_loc (Zpos m * 2 ^ j) loc_Exact) with (exact (Zpos m * 2 ^ j)).
  rewrite shr_exact by lia.
  cbn [exact shr_m loc_of_shr_record round_nearest_even shr_record_of_loc].
  rewrite Zdigits2_log2, Hm.
  replace (fexp prec emax (52 + 1 + (ex + j)) - (ex + j)) with 0
    by (unfold fexp, SpecFloat.emin, prec, emax; lia).
  cbn [shr shr_m].
  replace (ex + j <=? emax - prec) with true; [ reflexivity | ].
  symmetry. apply Z.leb_le. unfold emax, prec. lia.
Qed.

Lemma div_eucl_double (a : Z) : Z.div_eucl (2 * a) 2 = (a, 0).
Proof.
  pose proof (Z.div_eucl_eq (2 * a) 2 ltac:(lia)) as E.
  pose proof (Z.mod_pos_bound (2 * a) 2 ltac:(lia)) as B.
  unfold Z.modulo in B. destruct (Z.div_eucl (2 * a) 2) as [q r].
  f_equal; lia.
Qed.

Lemma normal_form_log2 (p m : positive) (t : Z) :
  normal_form p m t -> Z.log2 (Zpos p) = 52 + t.
Proof.
  intros [Hm E]. destruct (Z.le_gt_cases 0 t) as [Ht | Ht].
  - rewrite Z.max_l, (Z.max_r 0 t), Z.pow_0_r, Z.mul_1_r in E by lia.
    rewrite E, <- Z.shiftl_mul_pow2, Z.log2_shiftl by lia. lia.
  - rewrite (Z.max_r 0 (- t)), (Z.max_l 0 t), Z.pow_0_r, Z.mul_1_r in E by lia.
    rewrite <- E, <- Z.shiftl_mul_pow2, Z.log2_shiftl in Hm by lia. lia.
Qed.

Lemma SFdiv_core_binary_two (p m : positive) (t : Z) :
  normal_form p m t -> - 52 <= t ->
  SFdiv_core_binary prec emax (Zpos p) 0 2 0
  = (Zpos m * 2 ^ Z.max 1 (t - 1), Z.min (t - 2) 0, loc_Exact).
Proof.
  intros Hn Ht. pose proof (normal_form_log2 _ _ _ Hn) as Hl. destruct Hn as [Hm E].
  unfold SFdiv_core_binary. rewrite Zdigits2_log2, Hl.
  change (Zdigits2 2) with 2.
  replace (Z.min (fexp prec emax (52 + t + 1 + 0 - (2 + 0))) (0 - 0)) with (Z.min (t - 2) 0)
    by (unfold fexp, SpecFloat.emin, prec, emax; lia).
  set (s := 0 - 0 - Z.min (t - 2) 0).
  assert (Hs : 0 <= s) by (subst s; lia).
  replace (match s with Z0 => Zpos p | Zpos _ => Z.shiftl (Zpos p) s | Zneg _ => 0 end)
    with (Zpos p * 2 ^ s)
    by (destruct s; [ cbn; lia | rewrite Z.shiftl_mul_pow2; lia | lia ]).
  replace (Zpos p * 2 ^ s) with (2 * (Zpos m * 2 ^ Z.max 1 (t - 1))).
  - rewrite div_eucl_double. reflexivity.
  - destruct (Z.le_gt_cases 2 t) as [H2 | H2].
    + rewrite (Z.max_l 0 (- t)), (Z.max_r 0 t), Z.pow_0_r, Z.mul_1_r in E by lia.
      replace s with 0 by (subst s; lia).
      rewrite Z.max_r, Z.pow_0_r, Z.mul_1_r, E by lia.
      replace t with (Z.succ (t - 1)) at 2 by lia.
      rewrite Z.pow_succ_r by lia. lia.
    + rewrite Z.max_l by lia. replace s with (2 - t) by (subst s; lia).
      destruct (Z.le_gt_cases 0 t) as [H0 | H0].
      * rewrite (Z.max_l 0 (- t)), (Z.max_r 0 t), Z.pow_0_r, Z.mul_1_r in E by lia.
        rewrite E. assert (t = 0 \/ t = 1) as [-> | ->] by lia; cbn; lia.
      * rewrite (Z.max_r 0 (- t)), (Z.max_l 0 t), Z.pow_0_r, Z.mul_1_r in E by lia.
        replace (2 - t) with (- t + 2) by lia.
        rewrite Z.pow_add_r, (Z.mul_assoc (Zpos p)), E by lia. cbn. lia.
Qed.

(** Halving an integer that binary64 holds exactly is exact. *)
Lemma SFdiv_two (p m : positive) (t : Z) :
  normal_form p m t -> - 52 <= t <= 972 ->
  SFdiv prec emax (S754_finite false p 0) (S754_finite false 2 0) = S754_finite false m (t - 1).
Proof.
  intros Hn Ht. unfold SFdiv. rewrite (SFdiv_core_binary_two p m t) by (assumption || lia).
  cbn [xorb]. rewrite binary_round_aux_exact.
  - f_equal. lia.
  - apply Hn.
  - lia.
  - lia.
Qed.

Lemma valid_finite (x : float) (s : bool) (m : positive) (e : Z) :
  Prim2SF x = S754_finite s m e ->
  Z.max (Z.log2 (Zpos m) + 1 + e - 53) (- 1074) = e /\ e <= 971.
Proof.
  intros E. pose proof (Prim2SF_valid x) as V. rewrite E in V.
  cbn [SpecFloat.valid_binary] in V. unfold bounded, canonical_mantissa in V.
  apply andb_prop in V. destruct V as [V1 V2].
  apply Z.eqb_eq in V1. apply Z.leb_le in V2.
  change (Zpos (digits2_pos m)) with (Zdigits2 (Zpos m)) in V1.
  rewrite Zdigits2_log2 in V1.
  unfold fexp, SpecFloat.emin, prec, emax in *. lia.
Qed.

Lemma math_trunc_Ok (x : float) (k : Z) :
  math_trunc x = Ok k ->
  exists n d, integer_ratio x = Some (n, d) /\ k = Z.quot n d.
Proof.
  unfold math_trunc, to_integer. destruct (is_nan x); [ discriminate | ].
  destruct (integer_ratio x) as [[n d] | ]; [ | discriminate ].
  intros [= <-]. eauto.
Qed.

(** A positive integer obtained by truncating a float has a normal form
    within the binary64 range. *)
Lemma trunc_normal_form (x : float) (p : positive) :
  math_trunc x = Ok (Zpos p) ->
  exists m t, normal_form p m t /\ - 52 <= t <= 971.
Proof.
  intros H. apply math_trunc_Ok in H. destruct H as (n & d & Hr & Hk).
  unfold integer_ratio in Hr.
  destruct (Prim2SF x) as [s | s | | s m e] eqn:E; try discriminate.
  - injection Hr as <- <-. discriminate.
  - pose proof (valid_finite _ _ _ _ E) as [Hc He].
    assert (Hm : 0 <= Z.log2 (Zpos m)) by apply Z.log2_nonneg.
    destruct (0 <=? e) eqn:Hs; injection Hr as <- <-.
    + apply Z.leb_le in Hs. rewrite Z.quot_1_r in Hk.
      destruct s.
      * exfalso. assert (0 < Zpos m * 2 ^ e) by (apply Z.mul_pos_pos; [ lia | apply Z.pow_pos_nonneg; lia ]).
        lia.
      * exists m, e. split; [ split | lia ].
        -- lia.
        -- rewrite Z.max_l, Z.max_r, Z.pow_0_r by lia. lia.
    + apply Z.leb_gt in Hs.
      assert (Hd : 0 < 2 ^ (- e)) by (apply Z.pow_pos_nonneg; lia).
      destruct s.
      * exfalso. rewrite <- Pos2Z.opp_pos, Z.quot_opp_l in Hk by lia.
        pose proof (Z.quot_pos (Zpos m) (2 ^ (- e)) ltac:(lia) Hd). lia.
      * rewrite Z.quot_div_nonneg in Hk by lia.
        assert (Hle : Zpos p <= Zpos m) by (rewrite Hk; apply Z.div_le_upper_bound; nia).
        pose proof (Z.log2_le_mono _ _ Hle) as Hlog.
        pose proof (Z.log2_nonneg (Zpos p)) as Hp.
        set (L := Z.log2 (Zpos p)) in *.
        assert (Hq : 0 < Zpos p * 2 ^ (52 - L))
          by (apply Z.mul_pos_pos; [ lia | apply Z.pow_pos_nonneg; lia ]).
        exists (Z.to_pos (Zpos p * 2 ^ (52 - L))), (L - 52).
        split; [ split | lia ].
        -- rewrite Z2Pos.id by lia.
           rewrite <- Z.shiftl_mul_pow2, Z.log2_shiftl by lia. fold L. lia.
        -- rewrite Z2Pos.id by lia.
           rewrite Z.max_r, Z.max_l, Z.pow_0_r by lia.
           replace (- (L - 52)) with (52 - L) by lia. lia.
Qed.

Lemma Prim2SF_SF2Prim_normal (s : bool) (m : positive) (e : Z) :
  Z.log2 (Zpos m) = 52 -> - 1074 <= e <= 971 ->
  Prim2SF (SF2Prim (S754_finite s m e)) = S754_finite s m e.
Proof.
  intros Hm He. apply Prim2SF_SF2Prim.
  cbn [SpecFloat.valid_binary]. unfold bounded, canonical_mantissa.
  change (Zpos (digits2_pos m)) with (Zdigits2 (Zpos m)). rewrite Zdigits2_log2, Hm.
  apply andb_true_intro. split.
  - apply Z.eqb_eq. unfold fexp, SpecFloat.emin, prec, emax. lia.
  - apply Z.leb_le. unfold prec, emax. lia.
Qed.

Lemma is_nan_finite (x : float) (s : bool) (m : positive) (e : Z) :
  Prim2SF x = S754_finite s m e -> is_nan x = false.
Proof.
  intros E. destruct (is_nan x) eqn:N; [ | reflexivity ].
  apply is_nan_Prim2SF in N. congruence.
Qed.

Lemma is_infinity_finite (x : float) (s : bool) (m : positive) (e : Z) :
  Prim2SF x = S754_finite s m e -> is_infinity x = false.
Proof.
  intros E. destruct (is_infinity x) eqn:N; [ | reflexivity ].
  apply is_infinity_Prim2SF in N. destruct N as [s' N]. congruence.
Qed.

(** [int(k / 2)] is the integer quotient, for every [k >= 0] that a
    truncation produced. *)
Lemma int_half (x : float) (k : Z) :
  math_trunc x = Ok k -> 0 <= k ->
  (h <~ int_truediv k 2 ;; int_of h) = Ok (k / 2).
Proof.
  intros Hx Hk. destruct k as [ | p | p ]; [ reflexivity | | lia ].
  destruct (trunc_normal_form _ _ Hx) as (m & t & Hn & Ht).
  unfold int_truediv. cbn [Z.eqb int_raw].
  rewrite (SFdiv_two p m t) by (assumption || lia).
  pose proof (Prim2SF_SF2Prim_normal false m (t - 1) (proj1 Hn) ltac:(lia)) as HP.
  rewrite (is_infinity_finite _ _ _ _ HP). cbn [bind].
  unfold int_of, math_trunc, to_integer, integer_ratio.
  rewrite (is_nan_finite _ _ _ _ HP), HP.
  destruct Hn as [Hm E].
  destruct (0 <=? t - 1) eqn:Hs; f_equal.
  - apply Z.leb_le in Hs. rewrite Z.quot_1_r.
    rewrite Z.max_l, Z.max_r, Z.pow_0_r, Z.mul_1_r in E by lia.
    rewrite E. replace t with (Z.succ (t - 1)) at 2 by lia.
    rewrite Z.pow_succ_r by lia.
    rewrite (Z.mul_comm 2), Z.mul_assoc, Z.div_mul by lia. reflexivity.
  - apply Z.leb_gt in Hs.
    assert (Hd : 0 < 2 ^ (- t)) by (apply Z.pow_pos_nonneg; lia).
    rewrite Z.quot_div_nonneg by (try apply Z.pow_pos_nonneg; lia).
    rewrite Z.max_r, Z.max_l, Z.pow_0_r, Z.mul_1_r in E by lia.
    rewrite <- E. replace (- (t - 1)) with (Z.succ (- t)) by lia.
    rewrite Z.pow_succ_r by lia.
    rewrite Z.div_mul_cancel_r by lia. reflexivity.
Qed.

(** ** Lists as arrays *)

Lemma size_nonneg (a : np.ndarray) : 0 <= np.size a.
Proof. unfold np.size. lia. Qed.

Lemma size_repeat (v : float) (n : nat) : np.size (repeat v n) = Z.of_nat n.
Proof. unfold np.size. rewrite repeat_length. reflexivity. Qed.

Lemma size_app (a b : np.ndarray) : np.size (a ++ b) = np.size a + np.size b.
Proof. unfold np.size. rewrite length_app. lia. Qed.

Lemma length_concat_repeat {A} (a : list A) (n : nat) :
  List.length (concat (repeat a n)) = (n * List.length a)%nat.
Proof.
  induction n as [ | n IH ]; cbn; [ reflexivity | ].
  rewrite length_app, IH. reflexivity.
Qed.

Lemma skipn_repeat {A} (v : A) (k n : nat) : skipn k (repeat v n) = repeat v (n - k).
Proof.
  revert n. induction k as [ | k IH ]; intros [ | n ]; cbn; try reflexivity.
  apply IH.
Qed.

Lemma zeros_Ok (n : Z) : 0 <= n -> np.zeros n = Ok (repeat 0%float (Z.to_nat n)).
Proof. intros Hn. unfold np.zeros. destruct (Z.ltb_spec n 0); [ lia | reflexivity ]. Qed.

Lemma concat_repeat_nil {A} (n : nat) : concat (repeat (@nil A) n) = [].
Proof. induction n as [ | n IH ]; [ reflexivity | exact IH ]. Qed.

Lemma tile_Ok (a : np.ndarray) (m : Z) :
  0 <= m -> np.tile a m = Ok (concat (repeat a (Z.to_nat m))).
Proof.
  intros Hm. unfold np.tile. destruct a as [ | x a ].
  - rewrite concat_repeat_nil. reflexivity.
  - destruct (Z.ltb_spec m 0); [ lia | reflexivity ].
Qed.

Lemma tile_size (a t : np.ndarray) (m : Z) :
  np.tile a m = Ok t -> np.size t = np.size a * m.
Proof.
  unfold np.tile. destruct a as [ | x a ].
  - intros [= <-]. reflexivity.
  - destruct (Z.ltb_spec m 0); [ discriminate | ].
    intros [= <-]. unfold np.size. rewrite length_concat_repeat. lia.
Qed.

Lemma resize_size (owndata : bool) (a r : np.ndarray) (n : Z) :
  np.resize owndata a n = Ok r -> np.size r = n.
Proof.
  unfold np.resize. destruct (Z.ltb_spec n 0); [ discriminate | ].
  destruct (Z.eqb_spec n (np.size a)); [ intros [= <-]; congruence | ].
  destruct owndata; [ | discriminate ].
  intros [= <-]. unfold np.size.
  rewrite length_app, length_firstn, repeat_length. lia.
Qed.

(** A resize to the size the array has is always accepted. *)
Lemma resize_same (owndata : bool) (a : np.ndarray) :
  np.resize owndata a (np.size a) = Ok a.
Proof.
  pose proof (size_nonneg a). unfold np.resize.
  destruct (Z.ltb_spec (np.size a) 0); [ lia | ]. rewrite Z.eqb_refl. reflexivity.
Qed.

(** On an array that owns its buffer, a resize keeps the first [n]
    elements and fills up with zeros. *)
Lemma resize_owned (a : np.ndarray) (n : Z) :
  0 <= n ->
  np.resize true a n
  = Ok (firstn (Z.to_nat n) a ++ repeat 0%float (Z.to_nat n - List.length a)).
Proof.
  intros Hn. unfold np.resize. destruct (Z.ltb_spec n 0); [ lia | ].
  destruct (Z.eqb_spec n (np.size a)) as [-> | ]; [ | reflexivity ].
  unfold np.size. rewrite Nat2Z.id, firstn_all, Nat.sub_diag, app_nil_r. reflexivity.
Qed.

Lemma resize_shrink (a : np.ndarray) (n : Z) :
  0 <= n <= np.size a -> np.resize true a n = Ok (firstn (Z.to_nat n) a).
Proof.
  intros Hn. rewrite resize_owned by lia. unfold np.size in Hn.
  replace (Z.to_nat n - List.length a)%nat with 0%nat by lia.
  cbn. rewrite app_nil_r. reflexivity.
Qed.

Lemma resize_grow (a : np.ndarray) (n : Z) :
  np.size a <= n ->
  np.resize true a n = Ok (a ++ repeat 0%float (Z.to_nat (n - np.size a))).
Proof.
  intros Hn. pose proof (size_nonneg a). rewrite resize_owned by lia. unfold np.size in *.
  rewrite firstn_all2 by lia. do 3 f_equal. lia.
Qed.

(** On an array that does not, every change of size is refused. *)
Lemma resize_refused (a : np.ndarray) (n : Z) :
  0 <= n -> n <> np.size a ->
  np.resize false a n
  = Raise (ValueError [Lit "cannot resize this array: it does not own its data"]).
Proof.
  intros Hn Hs. unfold np.resize. destruct (Z.ltb_spec n 0); [ lia | ].
  destruct (Z.eqb_spec n (np.size a)); [ contradiction | reflexivity ].
Qed.

(** The cycle after the two slice assignments. *)
Lemma fill_halves (k h : Z) (hi lo : float) :
  0 <= h <= k ->
  np.fill_from (np.fill_upto (repeat 0%float (Z.to_nat k)) h hi) h lo
  = repeat hi (Z.to_nat h) ++ repeat lo (Z.to_nat (k - h)).
Proof.
  intros Hh. unfold np.fill_upto. rewrite size_repeat, Z2Nat.id by lia.
  unfold np.clip at 1. destruct (Z.ltb_spec h 0); [ lia | ].
  rewrite Z.min_l by lia. rewrite skipn_repeat.
  unfold np.fill_from. rewrite size_app, !size_repeat.
  unfold np.clip. destruct (Z.ltb_spec h 0); [ lia | ].
  rewrite Z.min_l by lia.
  rewrite firstn_app, repeat_length, Nat.sub_diag, firstn_O, app_nil_r.
  rewrite firstn_all2 by (rewrite repeat_length; lia).
  rewrite length_app, !repeat_length. do 2 f_equal. lia.
Qed.

(** ** SquareSegment *)

Section Square.
Import SquareSegment SquareLocals.

Ltac run_steps :=
  repeat match goal with
    | |- context [match ?r with Ok _ => _ | Raise _ => _ end] => destruct r; cbn
    end.

(** [createArray] in terms of its local variables. *)
Lemma square_createArray_eq (sweep : Z) (self : t) :
  returned (createArray sweep) self
  = (n <~ numPoints self ;;
     k <~ numPointsCycle self ;;
     cycle <~ oneCycle self k ;;
     m <~ numCycles self ;;
     tile <~ np.tile cycle m ;;
     np.resize (np.tile_owndata m) tile n).
Proof.
  unfold createArray, numPoints, numPointsCycle, oneCycle, halfCycleLength, numCycles,
    Segment.calculateNumberOfPoints, Segment.applyAmplitudeScale,
    returned, mbind, getattr, lift, ret, bind.
  cbn. run_steps; reflexivity.
Qed.

(** The last step, once the sample count, the tiled array and the
    number of cycles are known. *)
Lemma square_createArray_resize (sweep n m : Z) (self : t) (tile : np.ndarray) :
  numPoints self = Ok n -> tiled self = Ok tile -> numCycles self = Ok m ->
  returned (createArray sweep) self = np.resize (np.tile_owndata m) tile n.
Proof.
  intros Hn Ht Hm. rewrite square_createArray_eq, Hn. cbn [bind].
  unfold tiled in Ht.
  destruct (numPointsCycle self) as [k | e]; [ | discriminate ]. cbn [bind] in *.
  destruct (oneCycle self k) as [cycle | e]; [ | discriminate ]. cbn [bind] in *.
  rewrite Hm in *. cbn [bind] in *. rewrite Ht. reflexivity.
Qed.

Lemma read_only_square_createArray (sweep : Z) : read_only (createArray sweep).
Proof. unfold createArray. read_only. Qed.

(** What the constructor has checked. *)
Lemma square_constructed_inv (self : t) :
  square_constructed self ->
  (baseIncr self =? 0)%float = true /\
  (durationFactor self =? 0)%float = true /\
  kind self = "Common Frequency"%string /\
  Segment._hasDelta (Segment.xDelta (base self)) = false /\
  Segment._hasDelta (Segment.yDelta (base self)) = false /\
  (0 <? cycleDuration self)%float = true /\
  Segment.amplitudeScale (base self) = 1e3%float.
Proof.
  intros (stimRec & channelRec & segmentRec & H). unfold __init__ in H.
  cbn [baseIncr durationFactor kind cycleDuration] in H.
  destruct (Square_BaseIncr channelRec =? 0)%float eqn:E1; cbn [negb] in H; [ | discriminate ].
  destruct (Square_DurFactor channelRec =? 0)%float eqn:E2; cbn [negb] in H; [ | discriminate ].
  destruct (Square_Kind channelRec =? "Common Frequency")%string eqn:E3; cbn [negb] in H;
    [ | discriminate ].
  unfold returned, Segment.hasXDelta, Segment.hasYDelta, mbind, getattr, ret in H.
  cbn in H.
  destruct (Segment._hasDelta _) eqn:E4 in H; cbn in H; [ discriminate | ].
  destruct (Segment._hasDelta _) eqn:E5 in H; cbn in H; [ discriminate | ].
  destruct (0 <? Square_Cycle channelRec)%float eqn:E6; cbn [negb] in H; [ | discriminate ].
  injection H as <-. cbn. apply String.eqb_eq in E3. auto 10.
Qed.

End Square.

(** ** Signs and finiteness through a division *)

Lemma leb_0_nonneg (x : float) : (0 <=? x)%float = true -> SF_nonneg (Prim2SF x).
Proof.
  rewrite leb_spec. change (Prim2SF 0) with (S754_zero false).
  destruct (Prim2SF x) as [s | [ | ] | | [ | ] m e]; cbn; intros H; auto; discriminate.
Qed.

Lemma ltb_0_pos (x : float) :
  (0 <? x)%float = true ->
  Prim2SF x = S754_infinity false \/ exists m e, Prim2SF x = S754_finite false m e.
Proof.
  rewrite ltb_spec. change (Prim2SF 0) with (S754_zero false).
  destruct (Prim2SF x) as [s | [ | ] | | [ | ] m e]; cbn; intros H; try discriminate; eauto.
Qed.

Lemma ltb_0_neq (x : float) : (0 <? x)%float = true -> (x =? 0)%float = false.
Proof.
  intros H. apply ltb_0_pos in H. rewrite eqb_spec.
  change (Prim2SF 0) with (S754_zero false).
  destruct H as [-> | (m & e & ->)]; reflexivity.
Qed.

Lemma binary_round_aux_sign (sx : bool) (mx ex : Z) (lx : location) :
  match binary_round_aux prec emax sx mx ex lx with
  | S754_zero s | S754_infinity s | S754_finite s _ _ => s = sx
  | S754_nan => True
  end.
Proof.
  unfold binary_round_aux.
  destruct (shr_fexp prec emax mx ex lx) as [mrs' e'].
  destruct (shr_fexp prec emax _ e' loc_Exact) as [mrs'' e''].
  destruct (shr_m mrs''); [ reflexivity | | exact I ].
  destruct (e'' <=? emax - prec); reflexivity.
Qed.

Lemma div_nonneg (x y : float) :
  (0 <=? x)%float = true -> (0 <? y)%float = true ->
  is_nan (x / y) = true \/ SF_nonneg (Prim2SF (x / y)).
Proof.
  intros Hx Hy. apply leb_0_nonneg in Hx. apply ltb_0_pos in Hy.
  destruct (is_nan (x / y)) eqn:N; [ left; reflexivity | right ].
  assert (Prim2SF (x / y) <> S754_nan) as NN
    by (intros C; apply is_nan_Prim2SF in C; congruence).
  rewrite div_spec in *. unfold SF64div in *.
  destruct (Prim2SF x) as [s | s | | s m e]; cbn in Hx; try contradiction; subst;
    destruct Hy as [Ey | (m' & e' & Ey)]; rewrite Ey in *; cbn in *; try congruence; auto.
  match goal with
  | |- context [SFdiv_core_binary ?p ?q ?a ?b ?c ?d] =>
      destruct (SFdiv_core_binary p q a b c d) as [[mz ez] lz]
  end.
  pose proof (binary_round_aux_sign false mz ez lz) as S.
  destruct (binary_round_aux prec emax false mz ez lz); cbn; auto.
Qed.

Lemma integer_ratio_nonneg (x : float) (n d : Z) :
  SF_nonneg (Prim2SF x) -> integer_ratio x = Some (n, d) -> 0 <= n /\ 0 < d.
Proof.
  unfold integer_ratio, SF_nonneg. destruct (Prim2SF x) as [s | s | | s m e]; intros Hs H;
    try discriminate.
  - injection H as <- <-. lia.
  - subst s. destruct (0 <=? e) eqn:He; injection H as <- <-.
    + apply Z.leb_le in He. pose proof (Z.pow_pos_nonneg 2 e ltac:(lia) He).
      split; [ destruct (2 ^ e); lia | lia ].
    + apply Z.leb_gt in He. split; [ lia | apply Z.pow_pos_nonneg; lia ].
Qed.

Lemma to_integer_nonneg (round : Z -> Z -> Z) (x : float) (k : Z) :
  (forall n d, 0 <= n -> 0 < d -> 0 <= round n d) ->
  SF_nonneg (Prim2SF x) -> to_integer round x = Ok k -> 0 <= k.
Proof.
  intros Hr Hs. unfold to_integer. destruct (is_nan x); [ discriminate | ].
  destruct (integer_ratio x) as [[n d] | ] eqn:E; [ | discriminate ].
  intros [= <-]. destruct (integer_ratio_nonneg _ _ _ Hs E). auto.
Qed.

Lemma quot_nonneg (n d : Z) : 0 <= n -> 0 < d -> 0 <= Z.quot n d.
Proof. intros. apply Z.quot_pos; lia. Qed.

Lemma ceil_nonneg (n d : Z) : 0 <= n -> 0 < d -> 0 <= - (- n / d).
Proof.
  intros Hn Hd. assert (- n / d <= 0); [ | lia ].
  apply Z.div_le_upper_bound; lia.
Qed.

(** The quotient of a non-negative by a positive float truncates, and
    rounds up, to a non-negative integer. *)
Lemma trunc_div_nonneg (x y : float) (k : Z) :
  (0 <=? x)%float = true -> (0 <? y)%float = true ->
  math_trunc (x / y) = Ok k -> 0 <= k.
Proof.
  intros Hx Hy H. destruct (div_nonneg x y Hx Hy) as [N | S].
  - unfold math_trunc, to_integer in H. rewrite N in H. discriminate.
  - exact (to_integer_nonneg _ _ _ quot_nonneg S H).
Qed.

Lemma ceil_div_nonneg (x y : float) (k : Z) :
  (0 <=? x)%float = true -> (0 <? y)%float = true ->
  math_ceil (x / y) = Ok k -> 0 <= k.
Proof.
  intros Hx Hy H. destruct (div_nonneg x y Hx Hy) as [N | S].
  - unfold math_ceil, to_integer in H. rewrite N in H. discriminate.
  - exact (to_integer_nonneg _ _ _ ceil_nonneg S H).
Qed.

(** A finite float converts to an integer. *)
Lemma to_integer_finite (round : Z -> Z -> Z) (x : float) :
  is_finite x = true -> exists k, to_integer round x = Ok k.
Proof.
  unfold is_finite. intros H. apply negb_true_iff, orb_false_iff in H. destruct H as [N I].
  unfold to_integer, integer_ratio. rewrite N.
  destruct (Prim2SF x) as [s | s | | s m e] eqn:E; eauto.
  - exfalso. assert (is_infinity x = true) by (apply is_infinity_Prim2SF; eauto). congruence.
  - exfalso. apply is_nan_Prim2SF in E. congruence.
  - destruct (0 <=? e); eauto.
Qed.

Lemma truediv_Ok (x y : float) : (0 <? y)%float = true -> truediv x y = Ok (x / y)%float.
Proof. intros H. unfold truediv. rewrite (ltb_0_neq _ H). reflexivity. Qed.

(** ** SquareSegment.createArray *)

Section SquareCreateArray.
Import SquareSegment SquareLocals.

Lemma clip_bounds (len i : Z) : 0 <= len -> 0 <= np.clip len i <= len.
Proof. intros H. unfold np.clip. destruct (Z.ltb_spec i 0); lia. Qed.

Lemma fill_upto_size (a : np.ndarray) (stop : Z) (v : float) :
  np.size (np.fill_upto a stop v) = np.size a.
Proof.
  pose proof (clip_bounds (np.size a) stop (size_nonneg a)) as B.
  unfold np.fill_upto, np.size in *.
  rewrite length_app, repeat_length, length_skipn. lia.
Qed.

Lemma fill_from_size (a : np.ndarray) (start : Z) (v : float) :
  np.size (np.fill_from a start v) = np.size a.
Proof.
  pose proof (clip_bounds (np.size a) start (size_nonneg a)) as B.
  unfold np.fill_from, np.size in *.
  rewrite length_app, repeat_length, length_firstn. lia.
Qed.

Lemma oneCycle_size (self : t) (k : Z) (cycle : np.ndarray) :
  oneCycle self k = Ok cycle -> 0 <= k /\ np.size cycle = k.
Proof.
  unfold oneCycle, np.zeros. destruct (Z.ltb_spec k 0) as [Hk | Hk]; [ discriminate | ].
  cbn [bind]. destruct (halfCycleLength k) as [half | e]; [ | discriminate ].
  cbn. intros [= <-]. split; [ assumption | ].
  rewrite fill_from_size, fill_upto_size, size_repeat. lia.
Qed.

Lemma tiled_size (self : t) (tile : np.ndarray) :
  tiled self = Ok tile ->
  exists k m, numPointsCycle self = Ok k /\ numCycles self = Ok m /\ np.size tile = k * m.
Proof.
  unfold tiled. intros H.
  apply bind_Ok in H. destruct H as (k & Hk & H).
  apply bind_Ok in H. destruct H as (cycle & Hc & H).
  apply bind_Ok in H. destruct H as (m & Hm & H).
  apply oneCycle_size in Hc. apply tile_size in H.
  exists k, m. destruct Hc as [? <-]. auto.
Qed.

(** The cycle: [k / 2] samples at the scaled amplitude, the others at
    its negation. *)
Lemma oneCycle_Ok (self : t) (k : Z) :
  numPointsCycle self = Ok k -> 0 <= k ->
  oneCycle self k
  = Ok (repeat (posAmp self * Segment.amplitudeScale (base self))%float (Z.to_nat (k / 2))
        ++ repeat (- posAmp self * Segment.amplitudeScale (base self))%float
             (Z.to_nat (k - k / 2))).
Proof.
  intros Hk H0. unfold numPointsCycle in Hk.
  apply bind_Ok in Hk. destruct Hk as (q & _ & Hq).
  unfold oneCycle. rewrite zeros_Ok by assumption. cbn [bind].
  unfold halfCycleLength. rewrite (int_half q k Hq H0). cbn [bind].
  rewrite !returned_applyAmplitudeScale. cbn [bind Segment.super object].
  rewrite fill_halves; [ reflexivity | ].
  split; [ apply Z.div_pos; lia | apply Z.div_le_upper_bound; lia ].
Qed.

(** Every array a constructed square segment returns has exactly
    [sampleCount(duration)] samples.  The segment has a sample count, a
    tiled array and a number of cycles when the sample interval is
    positive, the duration is not negative and the three quotients it
    forms are finite; it then returns an array if the tiled array has
    just that many samples or there is a single cycle. *)
Lemma square_createArray_length (self : t) (sweep : Z) :
  square_constructed self ->
  (forall out, returned (createArray sweep) self = Ok out ->
               numPoints self = Ok (np.size out)) /\
  ((0 <? Segment.sampleInterval (base self))%float = true ->
   (0 <=? Segment.duration (base self))%float = true ->
   is_finite (Segment.duration (base self) / Segment.sampleInterval (base self)) = true ->
   is_finite (cycleDuration self / Segment.sampleInterval (base self)) = true ->
   is_finite (Segment.duration (base self) / cycleDuration self) = true ->
   exists n tile m,
     numPoints self = Ok n /\ tiled self = Ok tile /\ numCycles self = Ok m /\
     (n = np.size tile \/ m = 1 -> exists out, returned (createArray sweep) self = Ok out)).
Proof.
  intros Hc. split.
  - intros out H. rewrite square_createArray_eq in H.
    apply bind_Ok in H. destruct H as (n & Hn & H).
    apply bind_Ok in H. destruct H as (k & _ & H).
    apply bind_Ok in H. destruct H as (cycle & _ & H).
    apply bind_Ok in H. destruct H as (m & _ & H).
    apply bind_Ok in H. destruct H as (tile & _ & H).
    apply resize_size in H. congruence.
  - intros Hdt Hd F1 F2 F3.
    destruct (square_constructed_inv self Hc) as (_ & _ & _ & _ & _ & Hcyc & _).
    assert (Hcyc' : (0 <=? cycleDuration self)%float = true).
    { rewrite leb_spec. apply ltb_0_pos in Hcyc. change (Prim2SF 0) with (S754_zero false).
      destruct Hcyc as [-> | (m & e & ->)]; reflexivity. }
    destruct (to_integer_finite Z.quot _ F1) as [n Hn].
    destruct (to_integer_finite Z.quot _ F2) as [k Hk].
    destruct (to_integer_finite (fun n d => - (- n / d)) _ F3) as [m Hm].
    pose proof (trunc_div_nonneg _ _ _ Hd Hdt Hn) as Hn0.
    pose proof (trunc_div_nonneg _ _ _ Hcyc' Hdt Hk) as Hk0.
    pose proof (ceil_div_nonneg _ _ _ Hd Hcyc Hm) as Hm0.
    assert (En : numPoints self = Ok n).
    { unfold numPoints. rewrite returned_calculateNumberOfPoints.
      cbn [Segment.super object]. rewrite truediv_Ok by assumption. exact Hn. }
    assert (Ek : numPointsCycle self = Ok k).
    { unfold numPointsCycle. rewrite truediv_Ok by assumption. exact Hk. }
    assert (Em : numCycles self = Ok m).
    { unfold numCycles. rewrite truediv_Ok by assumption. exact Hm. }
    assert (Et : exists tile, tiled self = Ok tile).
    { unfold tiled. rewrite Ek. cbn [bind]. rewrite (oneCycle_Ok self k Ek Hk0), Em.
      cbn [bind]. rewrite tile_Ok by assumption. eauto. }
    destruct Et as [tile Et]. exists n, tile, m. repeat split; try assumption.
    rewrite (square_createArray_resize sweep n m self tile En Et Em).
    intros [-> | ->].
    + rewrite resize_same. eauto.
    + change (np.tile_owndata 1) with true. rewrite resize_owned by assumption. eauto.
Qed.

(** C5, where the code departs from it.  With [n] the sample count,
    [tile] the tiled array and [m] the number of cycles of a constructed
    square segment, [createArray] returns an array -- and then one of
    exactly [n] samples -- only when the tiled array already has [n]
    samples or there is a single cycle.  With two cycles or more and a
    tiled array of another length, which is what a cycle duration that
    does not divide the duration gives, the in-place resize of the view
    that [np.tile] returned is refused: [createArray] raises
    [ValueError] and returns no array at all. *)
Theorem square_createArray_returns_iff (self : t) (sweep n m : Z) (tile : np.ndarray) :
  square_constructed self ->
  numPoints self = Ok n -> tiled self = Ok tile -> numCycles self = Ok m ->
  ((exists out, returned (createArray sweep) self = Ok out)
   <-> 0 <= n /\ (n = np.size tile \/ m = 1)) /\
  (forall out, returned (createArray sweep) self = Ok out -> np.size out = n) /\
  (0 <= n -> n <> np.size tile -> m <> 1 ->
   returned (createArray sweep) self
   = Raise (ValueError [Lit "cannot resize this array: it does not own its data"])).
Proof.
  intros _ Hn Ht Hm.
  rewrite (square_createArray_resize sweep n m self tile Hn Ht Hm).
  split; [ | split ].
  - split.
    + intros [out H]. unfold np.resize in H.
      destruct (Z.ltb_spec n 0); [ discriminate | ]. split; [ assumption | ].
      destruct (Z.eqb_spec n (np.size tile)); [ left; assumption | ].
      unfold np.tile_owndata in H.
      destruct (Z.eqb_spec m 1); [ right; assumption | discriminate ].
    + intros [H0 [-> | ->]].
      * rewrite resize_same. eauto.
      * change (np.tile_owndata 1) with true. rewrite resize_owned by assumption. eauto.
  - intros out H. exact (resize_size _ _ _ _ H).
  - intros H0 Hs H1.
    replace (np.tile_owndata m) with false by (symmetry; apply Z.eqb_neq; assumption).
    apply resize_refused; assumption.
Qed.

(** C1, as the code has it.  The tiled array has
    [numPointsCycle * numCycles] samples, which may be fewer than the
    [n] samples asked for.  When it has exactly [n], it is returned as
    it is; when there is a single cycle and it has at least [n], its
    first [n] samples are returned. *)
Theorem square_tiled_length (self : t) (sweep n : Z) (tile : np.ndarray) :
  numPoints self = Ok n -> tiled self = Ok tile ->
  (exists k m, numPointsCycle self = Ok k /\ numCycles self = Ok m /\ np.size tile = k * m) /\
  (n = np.size tile -> returned (createArray sweep) self = Ok tile) /\
  (numCycles self = Ok 1 -> 0 <= n <= np.size tile ->
   returned (createArray sweep) self = Ok (firstn (Z.to_nat n) tile)).
Proof.
  intros Hn Ht. destruct (tiled_size self tile Ht) as (k & m & Hk & Hm & Hs).
  split; [ eauto | split ].
  - intros ->. rewrite (square_createArray_resize sweep _ m self tile Hn Ht Hm).
    apply resize_same.
  - intros H1 Hb. rewrite (square_createArray_resize sweep n 1 self tile Hn Ht H1).
    apply resize_shrink. assumption.
Qed.

(** C10, where the code departs from it.  The array [np.tile] returns
    for a number of cycles other than 1 does not own its buffer, so the
    in-place resize to [n] samples is refused whenever the tiled array
    has another number of samples, be it fewer or more: [createArray]
    raises [ValueError], and no array with trailing zeros comes out. *)
Theorem square_resize_refused (self : t) (sweep n m : Z) (tile : np.ndarray) :
  numPoints self = Ok n -> tiled self = Ok tile -> numCycles self = Ok m ->
  0 <= n -> n <> np.size tile -> m <> 1 ->
  returned (createArray sweep) self
  = Raise (ValueError [Lit "cannot resize this array: it does not own its data"]).
Proof.
  intros Hn Ht Hm H0 Hs H1.
  rewrite (square_createArray_resize sweep n m self tile Hn Ht Hm).
  replace (np.tile_owndata m) with false
    by (symmetry; apply Z.eqb_neq; assumption).
  apply resize_refused; assumption.
Qed.

(** C6.  The cycle of [k = numPointsCycle] samples is made of
    [k / 2] samples equal to the scaled [posAmp] followed by [k - k / 2]
    samples equal to the scaled negation of [posAmp]; and [negAmp] has no
    part in what [createArray] returns. *)
Theorem square_one_cycle (self : t) (k : Z) :
  numPointsCycle self = Ok k -> 0 <= k ->
  exists hi lo cycle,
    returned (Segment.applyAmplitudeScale (posAmp self)) self = Ok hi /\
    returned (Segment.applyAmplitudeScale (- posAmp self)%float) self = Ok lo /\
    oneCycle self k = Ok cycle /\
    np.size cycle = k /\
    (forall i, 0 <= i < k / 2 -> nth_error cycle (Z.to_nat i) = Some hi) /\
    (forall i, k / 2 <= i < k -> nth_error cycle (Z.to_nat i) = Some lo) /\
    (forall v sweep,
        returned (createArray sweep) (with_negAmp v self) = returned (createArray sweep) self).
Proof.
  intros Hk H0.
  assert (Hh : 0 <= k / 2 <= k)
    by (split; [ apply Z.div_pos; lia | apply Z.div_le_upper_bound; lia ]).
  do 3 eexists. split; [ apply returned_applyAmplitudeScale | ].
  split; [ apply returned_applyAmplitudeScale | ].
  split; [ apply (oneCycle_Ok self k Hk H0) | ].
  cbn [Segment.super object]. repeat split.
  - rewrite size_app, !size_repeat. lia.
  - intros i Hi. rewrite nth_error_app1 by (rewrite repeat_length; lia).
    apply nth_error_repeat. lia.
  - intros i Hi. rewrite nth_error_app2 by (rewrite repeat_length; lia).
    apply nth_error_repeat. rewrite repeat_length. lia.
  - intros v sweep. rewrite !square_createArray_eq. unfold numPoints.
    rewrite !returned_calculateNumberOfPoints. reflexivity.
Qed.

Lemma sample_square_constructed (cycle d : float) :
  (0 <? cycle)%float = true -> square_constructed (sample_square cycle d).
Proof.
  intros H. exists (sample_stim 0.001), (sample_channel cycle "Common Frequency"),
    (sample_segment "Squarewave" d no_delta no_delta).
  unfold SquareSegment.__init__. cbn. rewrite H. reflexivity.
Qed.

(** Three cycles of 2 ms for 5 ms: six samples tiled where five are
    asked for, and no array comes out. *)
Lemma square_createArray_returns_iff_witness :
  let tile := [500%float; (-500)%float; 500%float; (-500)%float; 500%float; (-500)%float] in
  ((exists out, returned (createArray 0) (sample_square 0.002 0.005) = Ok out)
   <-> 0 <= 5 /\ (5 = np.size tile \/ 3 = 1)) /\
  (forall out, returned (createArray 0) (sample_square 0.002 0.005) = Ok out ->
               np.size out = 5) /\
  (0 <= 5 -> 5 <> np.size tile -> 3 <> 1 ->
   returned (createArray 0) (sample_square 0.002 0.005)
   = Raise (ValueError [Lit "cannot resize this array: it does not own its data"])).
Proof.
  cbv zeta.
  apply (square_createArray_returns_iff (sample_square 0.002 0.005) 0 5 3).
  - apply sample_square_constructed. reflexivity.
  - reflexivity.
  - reflexivity.
  - reflexivity.
Defined.

(** The same for 35 ms of a cycle of 5 ms: the quotient of the two
    floats is just above 7, so there are eight cycles of five samples
    where 35 samples are asked for. *)
Example square_seven_cycles_example :
  SquareSegment.__init__ (sample_stim 0.001) (sample_channel 0.005 "Common Frequency")
    (sample_segment "Squarewave" 0.035 no_delta no_delta) = Ok (sample_square 0.005 0.035) /\
  numPoints (sample_square 0.005 0.035) = Ok 35 /\
  numPointsCycle (sample_square 0.005 0.035) = Ok 5 /\
  numCycles (sample_square 0.005 0.035) = Ok 8 /\
  returned (createArray 0) (sample_square 0.005 0.035)
  = Raise (ValueError [Lit "cannot resize this array: it does not own its data"]).
Proof. repeat split. Qed.

(** C1, refuted as stated: a constructed segment of cycle 1.5 ms sampled
    every millisecond for 3 ms has a cycle of one sample and two cycles,
    so a tiled array of two samples where three are asked for. *)
Lemma square_tiled_shorter_example :
  SquareSegment.__init__ (sample_stim 0.001) (sample_channel 0.0015 "Common Frequency")
    (sample_segment "Squarewave" 0.003 no_delta no_delta) = Ok (sample_square 0.0015 0.003) /\
  numPoints (sample_square 0.0015 0.003) = Ok 3 /\
  numPointsCycle (sample_square 0.0015 0.003) = Ok 1 /\
  numCycles (sample_square 0.0015 0.003) = Ok 2 /\
  tiled (sample_square 0.0015 0.003) = Ok [(-500)%float; (-500)%float].
Proof. repeat split. Qed.

Lemma square_tiled_length_witness :
  (exists k m, numPointsCycle (sample_square 0.004 0.003) = Ok k /\
               numCycles (sample_square 0.004 0.003) = Ok m /\
               np.size [500%float; 500%float; (-500)%float; (-500)%float] = k * m) /\
  (3 = np.size [500%float; 500%float; (-500)%float; (-500)%float] ->
   returned (createArray 0) (sample_square 0.004 0.003)
   = Ok [500%float; 500%float; (-500)%float; (-500)%float]) /\
  (numCycles (sample_square 0.004 0.003) = Ok 1 ->
   0 <= 3 <= np.size [500%float; 500%float; (-500)%float; (-500)%float] ->
   returned (createArray 0) (sample_square 0.004 0.003)
   = Ok (firstn (Z.to_nat 3) [500%float; 500%float; (-500)%float; (-500)%float])).
Proof.
  apply (square_tiled_length (sample_square 0.004 0.003) 0 3).
  - reflexivity.
  - reflexivity.
Defined.

(** A single cycle of 4 ms cut to 3 ms, and two cycles of 2 ms that
    fill 4 ms. *)
Example square_returns_example :
  returned (createArray 0) (sample_square 0.004 0.003)
  = Ok [500%float; 500%float; (-500)%float] /\
  returned (createArray 0) (sample_square 0.002 0.004)
  = Ok [500%float; (-500)%float; 500%float; (-500)%float].
Proof. split; reflexivity. Qed.

(** Two cycles of one sample where three samples are asked for. *)
Lemma square_resize_refused_witness :
  returned (createArray 0) (sample_square 0.0015 0.003)
  = Raise (ValueError [Lit "cannot resize this array: it does not own its data"]).
Proof.
  apply (square_resize_refused (sample_square 0.0015 0.003) 0 3 2 [(-500)%float; (-500)%float]).
  - reflexivity.
  - reflexivity.
  - reflexivity.
  - lia.
  - discriminate.
  - discriminate.
Defined.

(** The same refusal when the tiled array is the longer one: 5 ms of a
    cycle of 2 ms give three cycles of two samples, six samples where
    five are asked for. *)
Example square_longer_tile_example :
  numPoints (sample_square 0.002 0.005) = Ok 5 /\
  tiled (sample_square 0.002 0.005)
  = Ok [500%float; (-500)%float; 500%float; (-500)%float; 500%float; (-500)%float] /\
  returned (createArray 0) (sample_square 0.002 0.005)
  = Raise (ValueError [Lit "cannot resize this array: it does not own its data"]).
Proof. repeat split. Qed.

(** The cycle of 20 ms sampled every millisecond: ten samples at 500,
    then ten at -500. *)
Lemma square_one_cycle_witness :
  exists hi lo cycle,
    returned (Segment.applyAmplitudeScale (posAmp (sample_square 0.02 0.1))) (sample_square 0.02 0.1)
    = Ok hi /\
    returned (Segment.applyAmplitudeScale (- posAmp (sample_square 0.02 0.1))%float)
      (sample_square 0.02 0.1) = Ok lo /\
    oneCycle (sample_square 0.02 0.1) 20 = Ok cycle /\
    np.size cycle = 20 /\
    (forall i, 0 <= i < 20 / 2 -> nth_error cycle (Z.to_nat i) = Some hi) /\
    (forall i, 20 / 2 <= i < 20 -> nth_error cycle (Z.to_nat i) = Some lo) /\
    (forall v sweep,
        returned (createArray sweep) (with_negAmp v (sample_square 0.02 0.1))
        = returned (createArray sweep) (sample_square 0.02 0.1)).
Proof.
  apply (square_one_cycle (sample_square 0.02 0.1) 20).
  - reflexivity.
  - lia.
Defined.

Example square_one_cycle_example :
  oneCycle (sample_square 0.02 0.1) 20
  = Ok (repeat 500%float 10 ++ repeat (-500)%float 10) /\
  numPoints (sample_square 0.02 0.1) = Ok 100 /\
  numCycles (sample_square 0.02 0.1) = Ok 5 /\
  returned (createArray 0) (sample_square 0.02 0.1)
  = Ok (concat (repeat (repeat 500%float 10 ++ repeat (-500)%float 10) 5)).
Proof. repeat split. Qed.

End SquareCreateArray.

(** ** The delta stepping rule *)

(** C3, refuted as stated: a stepping dictionary in mode [LogInc] that
    is not active (factor 1, increment 0) hands the value back. *)
Lemma applyDelta_LogInc_inactive_example :
  Segment._applyDelta {| mode := "LogInc"; factor := 1; inc := 0 |} 5 3 = Ok 5%float /\
  is_nan 5 = false.
Proof. split; reflexivity. Qed.

(** C3, as the code has it: in mode [LogInc] the rule returns NaN for
    every value and every sweep exactly when the dictionary is active
    (factor other than 1 or increment other than 0); when it is not, the
    value comes back unchanged. *)
Theorem applyDelta_LogInc (d : deltaDict) (val : float) (sweepNo : Z) :
  mode d = "LogInc"%string ->
  (Segment._hasDelta d = true -> Segment._applyDelta d val sweepNo = Ok nan) /\
  (Segment._hasDelta d = false -> Segment._applyDelta d val sweepNo = Ok val).
Proof.
  intros Hm. unfold Segment._applyDelta. rewrite Hm. split; intros ->; reflexivity.
Qed.

Lemma applyDelta_LogInc_witness :
  Segment._applyDelta {| mode := "LogInc"; factor := 2; inc := 0 |} 5 3 = Ok nan.
Proof.
  apply (applyDelta_LogInc {| mode := "LogInc"; factor := 2; inc := 0 |} 5 3); reflexivity.
Defined.

(** ** SquareSegment.__init__ *)

(** C2, where the code departs from it: with a zero base increment and a
    zero duration factor, a kind other than ["Common Frequency"] makes
    the constructor raise [AttributeError] for [self.squareKind], the
    attribute the error message reads, and never the [ValueError] it was
    building. *)
Theorem square_init_kind_raises_AttributeError
    (stimRec : StimulationRecord) (channelRec : ChannelRecordStimulus)
    (segmentRec : StimSegmentRecord) :
  (Square_BaseIncr channelRec =? 0)%float = true ->
  (Square_DurFactor channelRec =? 0)%float = true ->
  Square_Kind channelRec <> "Common Frequency"%string ->
  SquareSegment.__init__ stimRec channelRec segmentRec
  = Raise (AttributeError "SquareSegment" "squareKind").
Proof.
  intros Hb Hd Hk. apply String.eqb_neq in Hk.
  unfold SquareSegment.__init__.
  cbn [SquareSegment.baseIncr SquareSegment.durationFactor SquareSegment.kind].
  rewrite Hb, Hd, Hk. reflexivity.
Qed.

Lemma square_init_kind_raises_AttributeError_witness :
  SquareSegment.__init__ (sample_stim 0.001) (sample_channel 0.02 "Separate Frequency")
    (sample_segment "Squarewave" 0.1 no_delta no_delta)
  = Raise (AttributeError "SquareSegment" "squareKind").
Proof.
  apply square_init_kind_raises_AttributeError.
  - reflexivity.
  - reflexivity.
  - discriminate.
Defined.

(** The sibling checks do raise the [ValueError] they build. *)
Example square_init_baseIncr_example :
  SquareSegment.__init__ (sample_stim 0.001)
    {| Square_PosAmpl := 0.5; Square_NegAmpl := -0.25; Square_Cycle := 0.02;
       Square_DurFactor := 0; Square_BaseIncr := 0.01; Square_Kind := "Common Frequency";
       Chirp_Amplitude := 0.5; Chirp_StartFreq := 1; Chirp_EndFreq := 10;
       Chirp_Kind := "Linear"; Holding := -0.0625 |}
    (sample_segment "Squarewave" 0.1 no_delta no_delta)
  = Raise (ValueError [Lit "Unsupported baseIncr="; Fmt (VFloat 0.01)]).
Proof. reflexivity. Qed.

Example square_init_delta_example :
  SquareSegment.__init__ (sample_stim 0.001) (sample_channel 0.02 "Common Frequency")
    (sample_segment "Squarewave" 0.1 no_delta {| mode := "Inc"; factor := 2; inc := 0 |})
  = Raise (ValueError [Lit "Delta modes are not supported."]).
Proof. reflexivity. Qed.

(** ** Segment.calculateNumberOfPoints *)

Lemma integer_ratio_den (x : float) (n d : Z) : integer_ratio x = Some (n, d) -> 0 < d.
Proof.
  unfold integer_ratio. destruct (Prim2SF x) as [s | s | | s m e]; try discriminate.
  - intros [= <- <-]. lia.
  - destruct (Z.leb_spec 0 e); intros [= <- <-]; [ lia | apply Z.pow_pos_nonneg; lia ].
Qed.

Lemma Qfloor_ratio (n d : Z) : 0 < d -> Qfloor (n # Z.to_pos d) = n / d.
Proof. intros Hd. cbn. rewrite Z2Pos.id by assumption. reflexivity. Qed.

Lemma Qceiling_ratio (n d : Z) : 0 < d -> Qceiling (n # Z.to_pos d) = - (- n / d).
Proof. intros Hd. unfold Qceiling. cbn. rewrite Z2Pos.id by assumption. reflexivity. Qed.

Lemma Qle_0_ratio (n : Z) (d : positive) : (0 <= n # d)%Q <-> 0 <= n.
Proof. unfold Qle. cbn. lia. Qed.

Lemma Qle_ratio_0 (n : Z) (d : positive) : (n # d <= 0)%Q <-> n <= 0.
Proof. unfold Qle. cbn. lia. Qed.

(** Truncation toward zero is the floor of a non-negative ratio and the
    ceiling of a non-positive one. *)
Lemma quot_floor_ceiling (n d : Z) :
  0 < d ->
  (0 <= n -> Z.quot n d = n / d) /\ (n <= 0 -> Z.quot n d = - (- n / d)).
Proof.
  intros Hd. split; intros Hn.
  - apply Z.quot_div_nonneg; lia.
  - rewrite <- (Z.opp_involutive n) at 1. rewrite Z.quot_opp_l by lia.
    rewrite Z.quot_div_nonneg by lia. reflexivity.
Qed.

Lemma is_finite_ratio (x : float) :
  is_finite x = true -> is_nan x = false /\ exists n d, integer_ratio x = Some (n, d).
Proof.
  unfold is_finite. intros H. apply negb_true_iff, orb_false_iff in H. destruct H as [N I].
  split; [ assumption | ]. unfold integer_ratio.
  destruct (Prim2SF x) as [s | s | | s m e] eqn:E; eauto.
  - exfalso. assert (is_infinity x = true) by (apply is_infinity_Prim2SF; eauto). congruence.
  - exfalso. apply is_nan_Prim2SF in E. congruence.
  - destruct (0 <=? e); eauto.
Qed.

(** C4, as the code has it.  For a positive sample interval and a
    finite quotient [duration / sampleInterval], the number of points is
    that quotient truncated toward zero: its floor when it is not
    negative, its ceiling when it is not positive.  In particular
    0.01 s and 0.0105 s sampled every 0.001 s both give 10 points. *)
Theorem calculateNumberOfPoints_truncates :
  (forall (T : Type) (O : Segment.Object T) (self : T) (d : float),
      (0 <? Segment.sampleInterval (Segment.super self))%float = true ->
      is_finite (d / Segment.sampleInterval (Segment.super self)) = true ->
      exists q k,
        exact_value (d / Segment.sampleInterval (Segment.super self)) = Some q /\
        returned (Segment.calculateNumberOfPoints d) self = Ok k /\
        ((0 <= q)%Q -> k = Qfloor q) /\
        ((q <= 0)%Q -> k = Qceiling q)) /\
  returned (Segment.calculateNumberOfPoints 0.01) (sample_constant 0.01 no_delta no_delta)
  = Ok 10 /\
  returned (Segment.calculateNumberOfPoints 0.0105) (sample_constant 0.0105 no_delta no_delta)
  = Ok 10.
Proof.
  split; [ | split; reflexivity ].
  intros T O self d Hdt Hf.
  destruct (is_finite_ratio _ Hf) as (Hn & n & den & Hr).
  pose proof (integer_ratio_den _ _ _ Hr) as Hden.
  destruct (quot_floor_ceiling n den Hden) as [Hfl Hce].
  exists (n # Z.to_pos den)%Q, (Z.quot n den). repeat split.
  - unfold exact_value. rewrite Hr. reflexivity.
  - rewrite returned_calculateNumberOfPoints, truediv_Ok by assumption. cbn [bind].
    unfold math_trunc, to_integer. rewrite Hn, Hr. reflexivity.
  - intros Hq. apply Qle_0_ratio in Hq. rewrite Qfloor_ratio by assumption. auto.
  - intros Hq. apply Qle_ratio_0 in Hq. rewrite Qceiling_ratio by assumption. auto.
Qed.

Lemma calculateNumberOfPoints_truncates_witness :
  exists q k,
    exact_value (0.0025 / 0.001)%float = Some q /\
    returned (Segment.calculateNumberOfPoints 0.0025) (sample_constant 0.0025 no_delta no_delta)
    = Ok k /\
    ((0 <= q)%Q -> k = Qfloor q) /\
    ((q <= 0)%Q -> k = Qceiling q).
Proof.
  apply (proj1 calculateNumberOfPoints_truncates ConstantSegment.t ConstantSegment.object
           (sample_constant 0.0025 no_delta no_delta) 0.0025%float); reflexivity.
Defined.

(** C4, refuted as stated: a duration stepped down to -1.5 ms (0.5 ms
    less 1 ms per sweep, at sweep 2) sampled every millisecond gives -1
    point, where the floor of the quotient is -2; the segment then fails
    to build its array. *)
Lemma calculateNumberOfPoints_negative_example :
  let self := sample_constant 0.0005 {| mode := "Inc"; factor := 1; inc := -0.001 |} no_delta in
  returned (Segment.doStepping 2) self = Ok ((-0.0015)%float, 250%float) /\
  returned (Segment.calculateNumberOfPoints (-0.0015)) self = Ok (-1) /\
  (exists q, exact_value (-0.0015 / 0.001)%float = Some q /\ Qfloor q = -2) /\
  returned (ConstantSegment.createArray 2) self
  = Raise (ValueError [Lit "negative dimensions are not allowed"]).
Proof.
  cbv zeta. repeat split.
  eexists. split; reflexivity.
Qed.

(** A duration stepped in mode [LogInc] is NaN, which has no integral
    part: the sample count, and with it [createArray], raises. *)
Example calculateNumberOfPoints_nan_example :
  let self := sample_constant 0.003 {| mode := "LogInc"; factor := 2; inc := 0 |} no_delta in
  returned (Segment.doStepping 1) self = Ok (nan, 250%float) /\
  returned (Segment.calculateNumberOfPoints nan) self
  = Raise (ValueError [Lit "cannot convert float NaN to integer"]) /\
  returned (ConstantSegment.createArray 1) self
  = Raise (ValueError [Lit "cannot convert float NaN to integer"]).
Proof. cbv zeta. repeat split. Qed.

(** ** np.linspace and RampSegment.createArray *)

Lemma linspace_Ok (start stop : float) (n : Z) :
  0 <= n ->
  np.linspace start stop n
  = Ok (let y := map (fun i => linspace_sample start stop n (Z.of_nat i)) (seq 0 (Z.to_nat n)) in
        if 1 <? n then np.set_last y stop else y).
Proof.
  intros Hn. unfold np.linspace, np.arange. destruct (Z.ltb_spec n 0); [ lia | ].
  f_equal. cbv zeta. unfold linspace_sample.
  destruct (0 <? n - 1); [ destruct (_ =? 0)%float | ]; rewrite !map_map; reflexivity.
Qed.

Lemma set_last_length {A} (y : list A) (v : A) (set := removelast y ++ [v]) :
  y <> [] -> List.length set = List.length y.
Proof.
  intros Hy. subst set. rewrite length_app, removelast_firstn_len, length_firstn. cbn.
  destruct y; [ contradiction | cbn; lia ].
Qed.

Lemma size_set_last (y : np.ndarray) (v : float) : np.size (np.set_last y v) = np.size y.
Proof.
  unfold np.size. destruct y as [ | x y ]; [ reflexivity | ].
  unfold np.set_last. rewrite set_last_length by discriminate. reflexivity.
Qed.

Lemma nth_error_set_last_last (y : np.ndarray) (v : float) :
  y <> [] -> nth_error (np.set_last y v) (List.length y - 1) = Some v.
Proof.
  intros Hy. destruct y as [ | x y ]; [ contradiction | ].
  unfold np.set_last. rewrite nth_error_app2;
    rewrite removelast_firstn_len, length_firstn; cbn [List.length]; [ | lia ].
  replace (S (List.length y) - 1 - Nat.min (Nat.pred (S (List.length y))) (S (List.length y)))%nat
    with 0%nat by lia.
  reflexivity.
Qed.

Lemma nth_error_set_last_other (y : np.ndarray) (v : float) (i : nat) :
  (i < List.length y - 1)%nat -> nth_error (np.set_last y v) i = nth_error y i.
Proof.
  intros Hi. destruct y as [ | x y ]; [ reflexivity | ].
  unfold np.set_last. rewrite nth_error_app1
    by (rewrite removelast_firstn_len, length_firstn; cbn [List.length] in *; lia).
  rewrite removelast_firstn_len, nth_error_firstn. cbn [List.length] in *.
  destruct (Nat.ltb_spec i (Nat.pred (S (List.length y)))); [ reflexivity | lia ].
Qed.

Lemma nth_error_map_seq {A} (f : nat -> A) (n i : nat) :
  (i < n)%nat -> nth_error (map f (seq 0 n)) i = Some (f i).
Proof.
  intros Hi. rewrite nth_error_map, nth_error_seq.
  destruct (Nat.ltb_spec i n); [ reflexivity | lia ].
Qed.

(** Subtracting [0.0] changes no float. *)
Lemma sub_zero_r (a : float) : (a - 0)%float = a.
Proof.
  apply Prim2SF_inj. rewrite sub_spec. change (Prim2SF 0) with (S754_zero false).
  destruct (Prim2SF a) as [[ | ] | s | | s m e]; reflexivity.
Qed.

Lemma is_finite_SF (x : float) :
  is_finite x = true ->
  (exists s, Prim2SF x = S754_zero s) \/ (exists s m e, Prim2SF x = S754_finite s m e).
Proof.
  unfold is_finite. intros H. apply negb_true_iff, orb_false_iff in H. destruct H as [N I].
  destruct (Prim2SF x) as [s | s | | s m e] eqn:E; eauto.
  - exfalso. assert (is_infinity x = true) by (apply is_infinity_Prim2SF; eauto). congruence.
  - exfalso. apply is_nan_Prim2SF in E. congruence.
Qed.

(** A lone sample of a ramp to a finite amplitude is [0.0]. *)
Lemma zero_mul_finite (a : float) : is_finite a = true -> (0 * a + 0)%float = 0%float.
Proof.
  intros H. apply Prim2SF_inj. rewrite add_spec, mul_spec.
  change (Prim2SF 0) with (S754_zero false).
  destruct (is_finite_SF a H) as [(s & ->) | (s & m & e & ->)]; destruct s; reflexivity.
Qed.

Lemma first_sample_zero_aux (a dv : float) :
  is_finite (a / dv) = true ->
  ((if (a / dv =? 0)%float then 0 / dv * a else 0 * (a / dv)) + 0)%float = 0%float.
Proof.
  intros H. apply Prim2SF_inj. rewrite add_spec.
  pose proof (is_finite_SF _ H) as F.
  rewrite eqb_spec. rewrite div_spec in *.
  change (Prim2SF 0) with (S754_zero false).
  destruct F as [(s & E) | (s & m & e & E)]; rewrite E.
  - change (SFeqb (S754_zero s) (S754_zero false)) with true. cbv iota.
    rewrite mul_spec, div_spec. change (Prim2SF 0) with (S754_zero false).
    unfold SF64div in E.
    destruct (Prim2SF a) as [sa | sa | | sa ma ea], (Prim2SF dv) as [sd | sd | | sd md ed];
      cbn in E; try discriminate; cbn;
      repeat match goal with |- context [xorb ?u ?v] => destruct (xorb u v) end; reflexivity.
  - replace (SFeqb (S754_finite s m e) (S754_zero false)) with false
      by (destruct s; reflexivity).
    cbv iota.
    rewrite mul_spec, div_spec. change (Prim2SF 0) with (S754_zero false).
    rewrite E. cbn. destruct s; reflexivity.
Qed.

(** The first sample is [0.0] as soon as the spacing is finite. *)
Lemma first_sample_zero (a dv : float) :
  is_finite (a / dv) = true ->
  (if (a / dv =? 0)%float then (0 / dv * a + 0)%float else (0 * (a / dv) + 0)%float)
  = 0%float.
Proof.
  intros H. pose proof (first_sample_zero_aux a dv H) as E.
  destruct (a / dv =? 0)%float; exact E.
Qed.

Lemma ramp_createArray_eq (sweep : Z) (self : RampSegment.t) :
  returned (RampSegment.createArray sweep) self
  = (da <~ returned (Segment.doStepping sweep) self ;;
     n <~ returned (Segment.calculateNumberOfPoints (fst da)) self ;;
     np.linspace 0 (snd da) n).
Proof.
  unfold RampSegment.createArray.
  rewrite returned_mbind by apply read_only_doStepping.
  destruct (returned (Segment.doStepping sweep) self) as [[d a] | e]; cbn [bind fst snd];
    [ | reflexivity ].
  rewrite returned_mbind by apply read_only_calculateNumberOfPoints.
  destruct (returned (Segment.calculateNumberOfPoints d) self) as [n | e]; reflexivity.
Qed.

(** C7, as the code has it.  With [(d, a)] the stepped duration and the
    stepped, scaled amplitude and [n >= 0] the sample count of [d], the
    ramp has [n] samples; the last of two or more is [a]; sample [i]
    before the last is [i * step + 0.0] with [step = a / (n - 1)] (or
    [i / (n - 1) * a + 0.0] when that step is zero); the first is [0.0]
    when the step is finite, and a lone sample is [0.0] when [a] is
    finite. *)
Theorem ramp_createArray_endpoints (self : RampSegment.t) (sweep : Z) (d a : float) (n : Z) :
  returned (Segment.doStepping sweep) self = Ok (d, a) ->
  returned (Segment.calculateNumberOfPoints d) self = Ok n ->
  0 <= n ->
  exists out,
    returned (RampSegment.createArray sweep) self = Ok out /\
    np.size out = n /\
    (n = 1 -> is_finite a = true -> out = [0%float]) /\
    (2 <= n -> nth_error out (Z.to_nat (n - 1)) = Some a) /\
    (2 <= n -> is_finite (a / Z2float (n - 1)) = true -> nth_error out 0 = Some 0%float) /\
    (forall i, 0 <= i < n - 1 ->
       nth_error out (Z.to_nat i)
       = Some (if (a / Z2float (n - 1) =? 0)%float
               then (Z2float i / Z2float (n - 1) * a + 0)%float
               else (Z2float i * (a / Z2float (n - 1)) + 0)%float)).
Proof.
  intros Hs Hn H0.
  set (y := map (fun i => linspace_sample 0 a n (Z.of_nat i)) (seq 0 (Z.to_nat n))).
  assert (Hy : List.length y = Z.to_nat n) by (subst y; rewrite length_map, length_seq; reflexivity).
  assert (Hsample : forall i, 2 <= n -> 0 <= i < n - 1 ->
            nth_error y (Z.to_nat i)
            = Some (if (a / Z2float (n - 1) =? 0)%float
                    then (Z2float i / Z2float (n - 1) * a + 0)%float
                    else (Z2float i * (a / Z2float (n - 1)) + 0)%float)).
  { intros i H2 Hi. subst y. rewrite nth_error_map_seq by lia. rewrite Z2Nat.id by lia.
    unfold linspace_sample. rewrite sub_zero_r.
    destruct (Z.ltb_spec 0 (n - 1)); [ | lia ].
    cbv zeta. destruct (_ =? 0)%float; reflexivity. }
  exists (if 1 <? n then np.set_last y a else y).
  split; [ | split; [ | split; [ | split; [ | split ] ] ] ].
  - rewrite ramp_createArray_eq, Hs. cbn [bind fst snd]. rewrite Hn. cbn [bind].
    apply linspace_Ok. assumption.
  - destruct (1 <? n); [ rewrite size_set_last | ]; unfold np.size; lia.
  - intros -> Hf. subst y. change (1 <? 1) with false. change (Z.to_nat 1) with 1%nat.
    cbn [seq map Z.of_nat]. unfold linspace_sample. change (0 <? 1 - 1) with false.
    cbv zeta iota. change (Z2float 0) with 0%float.
    rewrite sub_zero_r, zero_mul_finite by assumption. reflexivity.
  - intros H2. destruct (Z.ltb_spec 1 n); [ | lia ].
    replace (Z.to_nat (n - 1)) with (List.length y - 1)%nat by lia.
    apply nth_error_set_last_last. intros E. rewrite E in Hy. cbn in Hy. lia.
  - intros H2 Hf. destruct (Z.ltb_spec 1 n); [ | lia ].
    rewrite nth_error_set_last_other by lia.
    change 0%nat with (Z.to_nat 0). rewrite Hsample by lia.
    change (Z2float 0) with 0%float. f_equal. apply first_sample_zero. assumption.
  - intros i Hi. destruct (Z.ltb_spec 1 n); [ | lia ].
    rewrite nth_error_set_last_other by lia. apply Hsample; lia.
Qed.

Lemma ramp_createArray_endpoints_witness :
  exists out,
    returned (RampSegment.createArray 0) (sample_ramp 0.003 no_delta no_delta) = Ok out /\
    np.size out = 3 /\
    (3 = 1 -> is_finite 250 = true -> out = [0%float]) /\
    (2 <= 3 -> nth_error out (Z.to_nat (3 - 1)) = Some 250%float) /\
    (2 <= 3 -> is_finite (250 / Z2float (3 - 1)) = true -> nth_error out 0 = Some 0%float) /\
    (forall i, 0 <= i < 3 - 1 ->
       nth_error out (Z.to_nat i)
       = Some (if (250 / Z2float (3 - 1) =? 0)%float
               then (Z2float i / Z2float (3 - 1) * 250 + 0)%float
               else (Z2float i * (250 / Z2float (3 - 1)) + 0)%float)).
Proof.
  apply (ramp_createArray_endpoints (sample_ramp 0.003 no_delta no_delta) 0 0.003%float).
  - reflexivity.
  - reflexivity.
  - lia.
Defined.

Example ramp_example :
  returned (RampSegment.createArray 0) (sample_ramp 0.003 no_delta no_delta)
  = Ok [0%float; 125%float; 250%float] /\
  returned (RampSegment.createArray 0) (sample_ramp 0.001 no_delta no_delta)
  = Ok [0%float].
Proof. split; reflexivity. Qed.

(** C7, refuted as stated: a ramp whose amplitude is stepped in mode
    [LogInc] has the amplitude NaN; its three samples are NaN, the first
    one included, and its lone sample, over one millisecond, is NaN. *)
Lemma ramp_nan_example :
  let logInc := {| mode := "LogInc"; factor := 2; inc := 0 |} in
  returned (Segment.doStepping 0) (sample_ramp 0.003 no_delta logInc) = Ok (0.003%float, nan) /\
  returned (Segment.calculateNumberOfPoints 0.003) (sample_ramp 0.003 no_delta logInc) = Ok 3 /\
  returned (RampSegment.createArray 0) (sample_ramp 0.003 no_delta logInc) = Ok [nan; nan; nan] /\
  returned (RampSegment.createArray 0) (sample_ramp 0.001 no_delta logInc) = Ok [nan].
Proof. cbv zeta. repeat split. Qed.

(** ** createArray leaves the segment as it was *)

Lemma read_only_constant_createArray (sweep : Z) :
  read_only (ConstantSegment.createArray sweep).
Proof. unfold ConstantSegment.createArray. read_only. Qed.

Lemma read_only_ramp_createArray (sweep : Z) :
  read_only (RampSegment.createArray sweep).
Proof. unfold RampSegment.createArray. read_only. Qed.

Lemma read_only_chirp_createArray (chirp : chirp_function) (sweep : Z) :
  read_only (ChirpSegment.createArray chirp sweep).
Proof. unfold ChirpSegment.createArray. read_only. Qed.

Lemma after_on {T A} (wrap : T -> segment) (m : Method T A) (self : T) :
  read_only m -> snd (on wrap m self) = wrap self.
Proof.
  intros Hm. unfold on. specialize (Hm self). unfold after in Hm.
  destruct (m self) as [r self']. cbn in *. congruence.
Qed.

Lemma read_only_createArray (chirp : chirp_function) (sweep : Z) :
  read_only (createArray chirp sweep).
Proof.
  intros [s | s | s | s]; unfold after, createArray; apply after_on.
  - apply read_only_square_createArray.
  - apply read_only_constant_createArray.
  - apply read_only_ramp_createArray.
  - apply read_only_chirp_createArray.
Qed.

(** C9.  Whatever the variant and the sweep, and whatever waveform
    function stands for scipy's, a call of [createArray] hands the
    segment back with every attribute as it was; so a second call with
    the same sweep returns what the first returned (an array or the
    same exception), and again leaves the segment as it was. *)
Theorem createArray_leaves_segment_unchanged
    (chirp : chirp_function) (seg : segment) (sweep : Z) :
  after (createArray chirp sweep) seg = seg /\
  returned (createArray chirp sweep) (after (createArray chirp sweep) seg)
  = returned (createArray chirp sweep) seg /\
  after (createArray chirp sweep) (after (createArray chirp sweep) seg) = seg.
Proof.
  pose proof (read_only_createArray chirp sweep seg) as H.
  rewrite !H. auto.
Qed.

(** The constant segment of the specification, asked twice for sweep 3. *)
Example constant_twice_example :
  let seg := Constant (sample_constant 0.003 no_delta {| mode := "Inc"; factor := 1; inc := 0.5 |}) in
  forall chirp,
    createArray chirp 3 seg = (Ok [1750%float; 1750%float; 1750%float], seg) /\
    createArray chirp 3 (after (createArray chirp 3) seg)
    = (Ok [1750%float; 1750%float; 1750%float], seg).
Proof. cbv zeta. intros chirp. split; reflexivity. Qed.

(** ** ChirpSegment.createArray *)

(** What the segment asks of the waveform function: the time axis of
    [n] samples from 0 to the stepped duration, the start frequency, the
    stepped duration as the time of the end frequency, the end
    frequency, the sweep method of the kind, and a phase of -90 degrees;
    the waveform is then scaled by the stepped amplitude. *)
Lemma chirp_createArray_eq (chirp : chirp_function) (sweep : Z) (self : ChirpSegment.t) :
  returned (ChirpSegment.createArray chirp sweep) self
  = (da <~ returned (Segment.doStepping sweep) self ;;
     n <~ returned (Segment.calculateNumberOfPoints (fst da)) self ;;
     x <~ np.linspace 0 (fst da) n ;;
     method <~ (if (ChirpSegment.kind self =? "Exponential")%string then Ok "logarithmic"%string
                else if (ChirpSegment.kind self =? "Linear")%string then Ok "linear"%string
                else Raise (UnboundLocalError "method")) ;;
     wave <~ chirp x (ChirpSegment.startFreq self) (fst da) (ChirpSegment.endFreq self)
               method (-90)%float ;;
     Ok (np.scale (snd da) wave)).
Proof.
  unfold ChirpSegment.createArray.
  rewrite returned_mbind by apply read_only_doStepping.
  destruct (returned (Segment.doStepping sweep) self) as [[d a] | e]; cbn [bind fst snd];
    [ | reflexivity ].
  rewrite returned_mbind by apply read_only_calculateNumberOfPoints.
  destruct (returned (Segment.calculateNumberOfPoints d) self) as [n | e]; cbn [bind];
    [ | reflexivity ].
  rewrite returned_lift. destruct (np.linspace 0 d n) as [x | e]; cbn [bind]; [ | reflexivity ].
  rewrite returned_getattr, returned_lift.
  destruct (if (ChirpSegment.kind self =? "Exponential")%string then _ else _) as [method | e];
    cbn [bind]; [ | reflexivity ].
  rewrite !returned_getattr, returned_lift.
  destruct (chirp x _ d _ method _) as [wave | e]; reflexivity.
Qed.

(* ================================================================== *)
(** * Further properties of the code *)
(* ================================================================== *)

(** ** getSegmentClass *)

(** X1.  A segment that [getSegmentClass] returns is of the class the
    record names, and carries the base attributes of the records: the
    duration of the segment record, the sample interval of the
    stimulation record, the two stepping dictionaries, and an amplitude
    scale of 1000. *)
Theorem getSegmentClass_returns
    (stimRec : StimulationRecord) (channelRec : ChannelRecordStimulus)
    (segmentRec : StimSegmentRecord) (seg : segment) :
  getSegmentClass stimRec channelRec segmentRec = Ok seg ->
  Class_ segmentRec = class_name seg /\
  base_of seg = Segment.__init__ stimRec channelRec segmentRec /\
  Segment.duration (base_of seg) = Duration segmentRec /\
  Segment.sampleInterval (base_of seg) = SampleInterval stimRec /\
  Segment.amplitudeScale (base_of seg) = 1000%float.
Proof.
  intros H.
  assert (Class_ segmentRec = class_name seg /\
          base_of seg = Segment.__init__ stimRec channelRec segmentRec) as [Hc Hb].
  { unfold getSegmentClass in H.
    destruct (String.eqb_spec (Class_ segmentRec) "Squarewave") as [E | _].
    { apply bind_Ok in H. destruct H as (s & Hs & [= <-]). split; [ exact E | ].
      unfold SquareSegment.__init__ in Hs.
      repeat match type of Hs with
             | (if ?b then _ else _) = _ => destruct b; [ try discriminate | try discriminate ]
             | bind ?r _ = _ => destruct r; cbn [bind] in Hs; [ | discriminate ]
             end.
      all: try (apply bind_Ok in Hs; destruct Hs as (? & _ & ?); discriminate).
      all: injection Hs as <-; reflexivity. }
    destruct (String.eqb_spec (Class_ segmentRec) "Constant") as [E | _].
    { apply bind_Ok in H. destruct H as (s & Hs & [= <-]). split; [ exact E | ].
      unfold ConstantSegment.__init__ in Hs. apply bind_Ok in Hs.
      destruct Hs as (a & _ & [= <-]). reflexivity. }
    destruct (String.eqb_spec (Class_ segmentRec) "Ramp") as [E | _].
    { apply bind_Ok in H. destruct H as (s & Hs & [= <-]). split; [ exact E | ].
      unfold RampSegment.__init__ in Hs. apply bind_Ok in Hs.
      destruct Hs as (a & _ & [= <-]). reflexivity. }
    destruct (String.eqb_spec (Class_ segmentRec) "Chirpwave") as [E | _]; [ | discriminate ].
    apply bind_Ok in H. destruct H as (s & Hs & [= <-]). split; [ exact E | ].
    unfold ChirpSegment.__init__ in Hs.
    destruct (_ && _) in Hs; [ discriminate | ]. injection Hs as <-. reflexivity. }
  rewrite Hb. repeat split; assumption.
Qed.

Lemma square_init_not_unsupported_class
    (stimRec : StimulationRecord) (channelRec : ChannelRecordStimulus)
    (segmentRec : StimSegmentRecord) (name : string) :
  SquareSegment.__init__ stimRec channelRec segmentRec
  <> Raise (ValueError [Lit "Unsupported stim segment class "; Fmt (VStr name)]).
Proof.
  unfold SquareSegment.__init__.
  repeat match goal with
         | |- (if ?b then _ else _) <> _ => destruct b
         end; try discriminate.
  cbn. repeat match goal with
         | |- context [if ?b then _ else _] => destruct b; cbn
         end; discriminate.
Qed.

(** X2.  [getSegmentClass] raises its own [ValueError], naming the
    class, exactly when the class is none of the four it knows; no
    constructor raises that error. *)
Theorem getSegmentClass_unsupported
    (stimRec : StimulationRecord) (channelRec : ChannelRecordStimulus)
    (segmentRec : StimSegmentRecord) :
  getSegmentClass stimRec channelRec segmentRec = Raise (unsupported_class segmentRec)
  <-> Class_ segmentRec <> "Squarewave"%string /\ Class_ segmentRec <> "Constant"%string /\
      Class_ segmentRec <> "Ramp"%string /\ Class_ segmentRec <> "Chirpwave"%string.
Proof.
  unfold getSegmentClass, unsupported_class. split.
  - intros H.
    destruct (String.eqb_spec (Class_ segmentRec) "Squarewave") as [E | N1].
    { exfalso. pose proof (square_init_not_unsupported_class stimRec channelRec segmentRec
                             (Class_ segmentRec)) as N.
      destruct (SquareSegment.__init__ stimRec channelRec segmentRec); cbn [bind] in H;
        [ discriminate | apply N; congruence ]. }
    destruct (String.eqb_spec (Class_ segmentRec) "Constant") as [E | N2].
    { exfalso. unfold ConstantSegment.__init__, voltage_source in H.
      repeat match type of H with
             | context [if ?b then _ else _] => destruct b; cbn in H
             end; discriminate. }
    destruct (String.eqb_spec (Class_ segmentRec) "Ramp") as [E | N3].
    { exfalso. unfold RampSegment.__init__, voltage_source in H.
      repeat match type of H with
             | context [if ?b then _ else _] => destruct b; cbn in H
             end; discriminate. }
    destruct (String.eqb_spec (Class_ segmentRec) "Chirpwave") as [E | N4].
    { exfalso. unfold ChirpSegment.__init__ in H.
      destruct (_ && _) in H; cbn in H; discriminate. }
    auto.
  - intros (N1 & N2 & N3 & N4).
    apply String.eqb_neq in N1, N2, N3, N4. rewrite N1, N2, N3, N4. reflexivity.
Qed.

(** ** The constructors *)

(** X3.  The constructor of a square segment returns an object exactly
    when the base increment and the duration factor compare equal to
    zero, the kind is ["Common Frequency"], the four stepping fields
    compare equal to factor 1 and increment 0, and the cycle duration is
    greater than zero (a NaN in any of these numbers fails its test);
    the object then holds the fields of the records. *)
Theorem square_init_Ok_iff
    (stimRec : StimulationRecord) (channelRec : ChannelRecordStimulus)
    (segmentRec : StimSegmentRecord) (self : SquareSegment.t) :
  SquareSegment.__init__ stimRec channelRec segmentRec = Ok self
  <-> (Square_BaseIncr channelRec =? 0)%float = true /\
      (Square_DurFactor channelRec =? 0)%float = true /\
      Square_Kind channelRec = "Common Frequency"%string /\
      (DeltaTFactor segmentRec =? 1)%float = true /\
      (DeltaTIncrement segmentRec =? 0)%float = true /\
      (DeltaVFactor segmentRec =? 1)%float = true /\
      (DeltaVIncrement segmentRec =? 0)%float = true /\
      (0 <? Square_Cycle channelRec)%float = true /\
      self = {| SquareSegment.base := Segment.__init__ stimRec channelRec segmentRec;
                SquareSegment.posAmp := Square_PosAmpl channelRec;
                SquareSegment.negAmp := Square_NegAmpl channelRec;
                SquareSegment.cycleDuration := Square_Cycle channelRec;
                SquareSegment.durationFactor := Square_DurFactor channelRec;
                SquareSegment.baseIncr := Square_BaseIncr channelRec;
                SquareSegment.kind := Square_Kind channelRec |}.
Proof.
  unfold SquareSegment.__init__.
  cbn [SquareSegment.baseIncr SquareSegment.durationFactor SquareSegment.kind
       SquareSegment.cycleDuration].
  unfold returned, Segment.hasXDelta, Segment.hasYDelta, mbind, getattr, ret.
  cbn [fst bind Segment.super SquareSegment.object SquareSegment.base Segment.__init__
       Segment.xDelta Segment.yDelta].
  unfold Segment._hasDelta. cbn [factor inc].
  split.
  - intros H.
    destruct (Square_BaseIncr channelRec =? 0)%float; cbn [negb] in H; [ | discriminate ].
    destruct (Square_DurFactor channelRec =? 0)%float; cbn [negb] in H; [ | discriminate ].
    destruct (String.eqb_spec (Square_Kind channelRec) "Common Frequency") as [Ek | Ek];
      cbn [negb] in H; [ | discriminate ].
    destruct (DeltaTFactor segmentRec =? 1)%float; cbn in H; [ | discriminate ].
    destruct (DeltaTIncrement segmentRec =? 0)%float; cbn in H; [ | discriminate ].
    destruct (DeltaVFactor segmentRec =? 1)%float; cbn in H; [ | discriminate ].
    destruct (DeltaVIncrement segmentRec =? 0)%float; cbn in H; [ | discriminate ].
    destruct (0 <? Square_Cycle channelRec)%float; cbn in H; [ | discriminate ].
    injection H as <-. auto 10.
  - intros (-> & -> & Ek & -> & -> & -> & -> & -> & ->).
    rewrite Ek. reflexivity.
Qed.

Lemma chirp_constructed_kind (self : ChirpSegment.t) :
  chirp_constructed self ->
  ChirpSegment.kind self = "Exponential"%string \/ ChirpSegment.kind self = "Linear"%string.
Proof.
  intros (stimRec & channelRec & segmentRec & H). unfold ChirpSegment.__init__ in H.
  cbn [ChirpSegment.kind] in H.
  assert (K : ChirpSegment.kind self = Chirp_Kind channelRec).
  { destruct (_ && _) in H; [ discriminate | ]. injection H as <-. reflexivity. }
  rewrite K.
  destruct (String.eqb_spec (Chirp_Kind channelRec) "Exponential"); [ auto | ].
  destruct (String.eqb_spec (Chirp_Kind channelRec) "Linear"); [ auto | ].
  discriminate.
Qed.

Lemma chirp_createArray_constructed (chirp : chirp_function) (sweep : Z) (self : ChirpSegment.t) :
  chirp_constructed self ->
  returned (ChirpSegment.createArray chirp sweep) self
  = (da <~ returned (Segment.doStepping sweep) self ;;
     n <~ returned (Segment.calculateNumberOfPoints (fst da)) self ;;
     x <~ np.linspace 0 (fst da) n ;;
     wave <~ chirp x (ChirpSegment.startFreq self) (fst da) (ChirpSegment.endFreq self)
               (chirp_method (ChirpSegment.kind self)) (-90)%float ;;
     Ok (np.scale (snd da) wave)).
Proof.
  intros Hc. pose proof (chirp_constructed_kind self Hc) as E.
  rewrite chirp_createArray_eq. unfold chirp_method.
  destruct (returned (Segment.doStepping sweep) self) as [[d a] | e]; cbn [bind fst snd];
    [ | reflexivity ].
  destruct (returned (Segment.calculateNumberOfPoints d) self) as [n | e]; cbn [bind];
    [ | reflexivity ].
  destruct (np.linspace 0 d n) as [x | e]; cbn [bind]; [ | reflexivity ].
  destruct E as [-> | ->]; reflexivity.
Qed.

(** X4.  A chirp segment that came out of its constructor is of kind
    ["Exponential"] or ["Linear"], so [createArray] always has a sweep
    method to hand to the waveform function: ["logarithmic"] for the
    first kind, ["linear"] for the second. *)
Theorem chirp_method_bound (chirp : chirp_function) (sweep : Z) (self : ChirpSegment.t) :
  chirp_constructed self ->
  (ChirpSegment.kind self = "Exponential"%string \/ ChirpSegment.kind self = "Linear"%string) /\
  returned (ChirpSegment.createArray chirp sweep) self
  = (da <~ returned (Segment.doStepping sweep) self ;;
     n <~ returned (Segment.calculateNumberOfPoints (fst da)) self ;;
     x <~ np.linspace 0 (fst da) n ;;
     wave <~ chirp x (ChirpSegment.startFreq self) (fst da) (ChirpSegment.endFreq self)
               (chirp_method (ChirpSegment.kind self)) (-90)%float ;;
     Ok (np.scale (snd da) wave)).
Proof.
  intros Hc. split.
  - apply chirp_constructed_kind. assumption.
  - apply chirp_createArray_constructed. assumption.
Qed.

Lemma sample_chirp_constructed (d : float) (xd yd : deltaDict) :
  chirp_constructed (sample_chirp_segment "Linear" d xd yd).
Proof.
  exists (sample_stim 0.001), (sample_channel 0.02 "Common Frequency"),
    (sample_segment "Chirpwave" d xd yd).
  destruct xd, yd. reflexivity.
Qed.

Lemma chirp_method_bound_witness :
  (ChirpSegment.kind (sample_chirp_segment "Linear" 0.003 no_delta no_delta) = "Exponential"%string \/
   ChirpSegment.kind (sample_chirp_segment "Linear" 0.003 no_delta no_delta) = "Linear"%string) /\
  returned (ChirpSegment.createArray sample_chirp_function 0)
    (sample_chirp_segment "Linear" 0.003 no_delta no_delta)
  = Ok [500%float; 500%float; 500%float].
Proof.
  pose proof (chirp_method_bound sample_chirp_function 0
                (sample_chirp_segment "Linear" 0.003 no_delta no_delta)
                (sample_chirp_constructed 0.003 no_delta no_delta)) as [K E].
  split; [ exact K | ]. rewrite E. reflexivity.
Defined.

Lemma returned_on {T A} (wrap : T -> segment) (m : Method T A) (self : T) :
  fst (on wrap m self) = returned m self.
Proof. unfold on, returned. destruct (m self). reflexivity. Qed.

Lemma returned_doStepping_seg (sweepNo : Z) (seg : segment) :
  returned (doStepping sweepNo) seg
  = (a <~ amplitude_of seg ;;
     x <~ Segment._applyDelta (Segment.xDelta (base_of seg))
            (Segment.duration (base_of seg)) sweepNo ;;
     y <~ Segment._applyDelta (Segment.yDelta (base_of seg)) a sweepNo ;;
     Ok (x, (y * Segment.amplitudeScale (base_of seg))%float)).
Proof.
  destruct seg as [s | s | s | s]; unfold returned at 1, doStepping;
    rewrite returned_on, returned_doStepping; reflexivity.
Qed.

Lemma returned_calculateNumberOfPoints_seg (d : float) (seg : segment) :
  returned (calculateNumberOfPoints d) seg
  = (q <~ truediv d (Segment.sampleInterval (base_of seg)) ;; math_trunc q).
Proof.
  destruct seg as [s | s | s | s]; unfold returned at 1, calculateNumberOfPoints;
    rewrite returned_on, returned_calculateNumberOfPoints; reflexivity.
Qed.

Lemma constant_createArray_eq (sweep : Z) (self : ConstantSegment.t) :
  returned (ConstantSegment.createArray sweep) self
  = (da <~ returned (Segment.doStepping sweep) self ;;
     n <~ returned (Segment.calculateNumberOfPoints (fst da)) self ;;
     np.full n (snd da)).
Proof.
  unfold ConstantSegment.createArray.
  rewrite returned_mbind by apply read_only_doStepping.
  destruct (returned (Segment.doStepping sweep) self) as [[d a] | e]; cbn [bind fst snd];
    [ | reflexivity ].
  rewrite returned_mbind by apply read_only_calculateNumberOfPoints.
  destruct (returned (Segment.calculateNumberOfPoints d) self) as [n | e]; reflexivity.
Qed.

(** [createArray] of the three classes that step, in terms of the
    inherited methods. *)
Lemma returned_createArray_seg (chirp : chirp_function) (sweep : Z) (seg : segment) :
  returned (createArray chirp sweep) seg
  = match seg with
    | Square s => returned (SquareSegment.createArray sweep) s
    | Constant _ =>
        da <~ returned (doStepping sweep) seg ;;
        n <~ returned (calculateNumberOfPoints (fst da)) seg ;;
        np.full n (snd da)
    | Ramp _ =>
        da <~ returned (doStepping sweep) seg ;;
        n <~ returned (calculateNumberOfPoints (fst da)) seg ;;
        np.linspace 0 (snd da) n
    | Chirp s =>
        da <~ returned (doStepping sweep) seg ;;
        n <~ returned (calculateNumberOfPoints (fst da)) seg ;;
        x <~ np.linspace 0 (fst da) n ;;
        method <~ (if (ChirpSegment.kind s =? "Exponential")%string then Ok "logarithmic"%string
                   else if (ChirpSegment.kind s =? "Linear")%string then Ok "linear"%string
                   else Raise (UnboundLocalError "method")) ;;
        wave <~ chirp x (ChirpSegment.startFreq s) (fst da) (ChirpSegment.endFreq s)
                  method (-90)%float ;;
        Ok (np.scale (snd da) wave)
    end.
Proof.
  destruct seg as [s | s | s | s]; unfold returned at 1, createArray; rewrite returned_on.
  - reflexivity.
  - rewrite constant_createArray_eq. unfold returned at 3 4, doStepping, calculateNumberOfPoints.
    rewrite returned_on. destruct (returned (Segment.doStepping sweep) s) as [[d a] | e];
      cbn [bind fst snd]; [ | reflexivity ].
    rewrite returned_on. reflexivity.
  - rewrite ramp_createArray_eq. unfold returned at 3 4, doStepping, calculateNumberOfPoints.
    rewrite returned_on. destruct (returned (Segment.doStepping sweep) s) as [[d a] | e];
      cbn [bind fst snd]; [ | reflexivity ].
    rewrite returned_on. reflexivity.
  - rewrite chirp_createArray_eq. unfold returned at 3 4, doStepping, calculateNumberOfPoints.
    rewrite returned_on. destruct (returned (Segment.doStepping sweep) s) as [[d a] | e];
      cbn [bind fst snd]; [ | reflexivity ].
    rewrite returned_on. reflexivity.
Qed.

(** ** Stepping *)

Lemma applyDelta_inactive (d : deltaDict) (val : float) (sweepNo : Z) :
  Segment._hasDelta d = false -> Segment._applyDelta d val sweepNo = Ok val.
Proof. intros H. unfold Segment._applyDelta. rewrite H. reflexivity. Qed.

(** X5.  On a segment with an amplitude whose two stepping dictionaries
    are inactive, [doStepping] returns the duration as it is and the
    amplitude times the amplitude scale, whatever the sweep. *)
Theorem doStepping_without_delta (seg : segment) (a : float) (sweepNo : Z) :
  Segment._hasDelta (Segment.xDelta (base_of seg)) = false ->
  Segment._hasDelta (Segment.yDelta (base_of seg)) = false ->
  amplitude_of seg = Ok a ->
  returned (doStepping sweepNo) seg
  = Ok (Segment.duration (base_of seg), (a * Segment.amplitudeScale (base_of seg))%float).
Proof.
  intros Hx Hy Ha. rewrite returned_doStepping_seg, Ha. cbn [bind].
  rewrite !applyDelta_inactive by assumption. reflexivity.
Qed.

(** X6.  A segment whose two stepping dictionaries are inactive gives
    the same outcome of [createArray] for every sweep, whatever its
    class. *)
Theorem createArray_sweep_independent
    (chirp : chirp_function) (seg : segment) (sweep sweep' : Z) :
  Segment._hasDelta (Segment.xDelta (base_of seg)) = false ->
  Segment._hasDelta (Segment.yDelta (base_of seg)) = false ->
  createArray chirp sweep seg = createArray chirp sweep' seg.
Proof.
  intros Hx Hy.
  assert (R : returned (createArray chirp sweep) seg = returned (createArray chirp sweep') seg).
  { rewrite !returned_createArray_seg.
    destruct seg as [s | s | s | s]; [ reflexivity | | | ];
      rewrite !returned_doStepping_seg;
      (destruct (amplitude_of _) as [a | e]; cbn [bind]; [ | reflexivity ]);
      rewrite !applyDelta_inactive by assumption; reflexivity. }
  pose proof (read_only_createArray chirp sweep seg) as A.
  pose proof (read_only_createArray chirp sweep' seg) as A'.
  unfold returned, after in *.
  destruct (createArray chirp sweep seg), (createArray chirp sweep' seg). cbn in *. congruence.
Qed.

(** ** Zeros and NaN in float arithmetic *)

Lemma eqb_0_SF (z : float) : (z =? 0)%float = true <-> exists s, Prim2SF z = S754_zero s.
Proof.
  rewrite eqb_spec. change (Prim2SF 0) with (S754_zero false).
  destruct (Prim2SF z) as [s | s | | s m e]; cbn.
  - split; eauto.
  - split; [ destruct s; discriminate | intros [s' Hs]; discriminate ].
  - split; [ discriminate | intros [s' Hs]; discriminate ].
  - split; [ destruct s; discriminate | intros [s' Hs]; discriminate ].
Qed.

(** Adding a zero leaves a float as it is, the sign of a zero apart. *)
Lemma add_zero_same (v z : float) :
  (z =? 0)%float = true -> same_or_zeros (v + z)%float v.
Proof.
  intros Hz. apply eqb_0_SF in Hz. destruct Hz as [sz Hz].
  destruct (Prim2SF v) as [sv | sv | | sv m e] eqn:Ev.
  - right. split; apply eqb_0_SF; [ | eauto ].
    rewrite add_spec, Ev, Hz. destruct sv, sz; cbn; eauto.
  - left. apply Prim2SF_inj. rewrite add_spec, Ev, Hz. reflexivity.
  - left. apply Prim2SF_inj. rewrite add_spec, Ev, Hz. reflexivity.
  - left. apply Prim2SF_inj. rewrite add_spec, Ev, Hz. reflexivity.
Qed.

(** A finite float times a zero is a zero. *)
Lemma mul_zero_finite (x z : float) :
  is_finite x = true -> (z =? 0)%float = true -> (x * z =? 0)%float = true.
Proof.
  intros Hx Hz. apply eqb_0_SF in Hz. destruct Hz as [sz Hz]. apply eqb_0_SF.
  rewrite mul_spec, Hz.
  destruct (is_finite_SF x Hx) as [(s & ->) | (s & m & e & ->)]; cbn; eauto.
Qed.

Lemma zero_mul_finite_zero (z x : float) :
  (z =? 0)%float = true -> is_finite x = true -> (z * x =? 0)%float = true.
Proof.
  intros Hz Hx. apply eqb_0_SF in Hz. destruct Hz as [sz Hz]. apply eqb_0_SF.
  rewrite mul_spec, Hz.
  destruct (is_finite_SF x Hx) as [(s & ->) | (s & m & e & ->)]; cbn; eauto.
Qed.

Lemma float_of_int_finite (n : Z) :
  is_finite (Z2float n) = true -> float_of_int n = Ok (Z2float n).
Proof.
  unfold is_finite, float_of_int. intros H.
  apply negb_true_iff, orb_false_iff in H. destruct H as [_ ->]. reflexivity.
Qed.

(** NaN divided by anything, and NaN times anything, is NaN. *)
Lemma nan_div (y : float) : (nan / y)%float = nan.
Proof. apply Prim2SF_inj. rewrite div_spec. reflexivity. Qed.

Lemma nan_mul (y : float) : (nan * y)%float = nan.
Proof. apply Prim2SF_inj. rewrite mul_spec. reflexivity. Qed.

(** ** The stepping rule in mode Inc *)

(** X7.  In mode [Inc] the factor plays no part: at sweep 0 with a
    finite increment, and at every sweep that converts to a finite float
    with an increment equal to zero, the rule returns the value it was
    given, the sign of a zero apart. *)
Theorem applyDelta_Inc_unchanged (d : deltaDict) (val : float) (sweepNo : Z) :
  mode d = "Inc"%string ->
  (sweepNo = 0 /\ is_finite (inc d) = true) \/
  ((inc d =? 0)%float = true /\ is_finite (Z2float sweepNo) = true) ->
  exists r, Segment._applyDelta d val sweepNo = Ok r /\ same_or_zeros r val.
Proof.
  intros Hm H. unfold Segment._applyDelta.
  destruct (Segment._hasDelta d); cbn [negb]; [ | exists val; split; [ reflexivity | left; reflexivity ] ].
  rewrite Hm. cbn [String.eqb Ascii.eqb Bool.eqb].
  assert (F : is_finite (Z2float sweepNo) = true)
    by (destruct H as [[-> _] | [_ F]]; [ reflexivity | exact F ]).
  rewrite (float_of_int_finite _ F). cbn [bind].
  eexists. split; [ reflexivity | ]. apply add_zero_same.
  destruct H as [[-> Hi] | [Hi _]].
  - apply mul_zero_finite; [ assumption | reflexivity ].
  - apply zero_mul_finite_zero; assumption.
Qed.

Lemma applyDelta_Inc_unchanged_witness :
  exists r, Segment._applyDelta {| mode := "Inc"; factor := 2; inc := 0 |} 0.25 3 = Ok r /\
            same_or_zeros r 0.25.
Proof.
  apply applyDelta_Inc_unchanged.
  - reflexivity.
  - right. split; reflexivity.
Defined.

(** With an infinite increment the same rule turns every value into NaN
    at sweep 0, and a negative zero comes back positive. *)
Example applyDelta_Inc_edge_example :
  Segment._applyDelta {| mode := "Inc"; factor := 1; inc := infinity |} 0.25 0 = Ok nan /\
  Segment._applyDelta {| mode := "Inc"; factor := 1; inc := 0.5 |} (-0) 0 = Ok 0%float /\
  (-0)%float <> 0%float.
Proof.
  repeat split. intros E. apply (f_equal Prim2SF) in E. discriminate.
Qed.

(** ** A duration stepped in mode LogInc *)

Lemma math_trunc_nan :
  math_trunc nan = Raise (ValueError [Lit "cannot convert float NaN to integer"]).
Proof. reflexivity. Qed.

(** X10.  When the duration is stepped in mode [LogInc], the stepped
    duration is NaN and [createArray] raises for every sweep:
    [ZeroDivisionError] if the sample interval is zero, and otherwise
    [ValueError], NaN having no integral part. *)
Theorem logInc_duration_raises
    (chirp : chirp_function) (seg : segment) (sweep : Z) (d a : float) :
  mode (Segment.xDelta (base_of seg)) = "LogInc"%string ->
  Segment._hasDelta (Segment.xDelta (base_of seg)) = true ->
  returned (doStepping sweep) seg = Ok (d, a) ->
  d = nan /\
  returned (createArray chirp sweep) seg
  = if (Segment.sampleInterval (base_of seg) =? 0)%float
    then Raise (ZeroDivisionError "float division by zero")
    else Raise (ValueError [Lit "cannot convert float NaN to integer"]).
Proof.
  intros Hm Hx Hs.
  assert (Hd : d = nan).
  { rewrite returned_doStepping_seg in Hs.
    destruct (amplitude_of seg) as [a0 | e]; cbn [bind] in Hs; [ | discriminate ].
    unfold Segment._applyDelta at 1 in Hs. rewrite Hx, Hm in Hs. cbn in Hs.
    destruct (Segment._applyDelta _ a0 sweep); cbn in Hs; [ | discriminate ].
    injection Hs as <- _. reflexivity. }
  split; [ exact Hd | ]. subst d.
  assert (Hn : returned (calculateNumberOfPoints nan) seg
               = if (Segment.sampleInterval (base_of seg) =? 0)%float
                 then Raise (ZeroDivisionError "float division by zero")
                 else Raise (ValueError [Lit "cannot convert float NaN to integer"])).
  { rewrite returned_calculateNumberOfPoints_seg. unfold truediv.
    destruct (_ =? 0)%float; [ reflexivity | ]. cbn [bind]. rewrite nan_div. reflexivity. }
  rewrite returned_createArray_seg.
  destruct seg as [s | s | s | s].
  - rewrite returned_doStepping_seg in Hs. discriminate.
  - rewrite Hs. cbn [bind fst snd]. rewrite Hn. destruct (_ =? 0)%float; reflexivity.
  - rewrite Hs. cbn [bind fst snd]. rewrite Hn. destruct (_ =? 0)%float; reflexivity.
  - rewrite Hs. cbn [bind fst snd]. rewrite Hn. destruct (_ =? 0)%float; reflexivity.
Qed.

Lemma logInc_duration_raises_witness :
  let seg := Ramp (sample_ramp 0.003 {| mode := "LogInc"; factor := 2; inc := 0 |} no_delta) in
  nan = nan /\
  returned (createArray sample_chirp_function 4) seg
  = if (Segment.sampleInterval (base_of seg) =? 0)%float
    then Raise (ZeroDivisionError "float division by zero")
    else Raise (ValueError [Lit "cannot convert float NaN to integer"]).
Proof.
  cbv zeta.
  apply (logInc_duration_raises sample_chirp_function
           (Ramp (sample_ramp 0.003 {| mode := "LogInc"; factor := 2; inc := 0 |} no_delta))
           4 nan 250).
  - reflexivity.
  - reflexivity.
  - reflexivity.
Defined.

(** ** A stepped duration below zero *)

(** X12.  When the stepped duration gives a negative number of points,
    [createArray] raises [ValueError]: from [np.full] for a constant
    segment, from [np.linspace] for a ramp and, before the waveform
    function is called, for a chirp. *)
Theorem negative_count_raises
    (chirp : chirp_function) (seg : segment) (sweep : Z) (d a : float) (n : Z) :
  returned (doStepping sweep) seg = Ok (d, a) ->
  returned (calculateNumberOfPoints d) seg = Ok n ->
  n < 0 ->
  exists msg, returned (createArray chirp sweep) seg = Raise (ValueError msg).
Proof.
  intros Hs Hn H0. rewrite returned_createArray_seg.
  destruct seg as [s | s | s | s].
  - rewrite returned_doStepping_seg in Hs. discriminate.
  - rewrite Hs. cbn [bind fst snd]. rewrite Hn. cbn [bind]. unfold np.full.
    destruct (Z.ltb_spec n 0); [ eexists; reflexivity | lia ].
  - rewrite Hs. cbn [bind fst snd]. rewrite Hn. cbn [bind]. unfold np.linspace.
    destruct (Z.ltb_spec n 0); [ eexists; reflexivity | lia ].
  - rewrite Hs. cbn [bind fst snd]. rewrite Hn. cbn [bind]. unfold np.linspace.
    destruct (Z.ltb_spec n 0); [ eexists; reflexivity | lia ].
Qed.

Lemma negative_count_raises_witness :
  exists msg,
    returned (createArray sample_chirp_function 2)
      (Chirp (sample_chirp_segment "Linear" 0.0005
                {| mode := "Inc"; factor := 1; inc := -0.001 |} no_delta))
    = Raise (ValueError msg).
Proof.
  apply (negative_count_raises sample_chirp_function
           (Chirp (sample_chirp_segment "Linear" 0.0005
                     {| mode := "Inc"; factor := 1; inc := -0.001 |} no_delta))
           2 (-0.0015)%float 500 (-1)).
  - reflexivity.
  - reflexivity.
  - lia.
Defined.

(** ** ConstantSegment.createArray *)

(** X15.  A constant segment returns as many samples as the stepped
    duration has points, each equal to the stepped and scaled
    amplitude. *)
Theorem constant_createArray_samples
    (self : ConstantSegment.t) (sweep : Z) (d a : float) (n : Z) :
  returned (Segment.doStepping sweep) self = Ok (d, a) ->
  returned (Segment.calculateNumberOfPoints d) self = Ok n ->
  0 <= n ->
  exists out,
    returned (ConstantSegment.createArray sweep) self = Ok out /\
    np.size out = n /\
    Forall (fun v => v = a) out.
Proof.
  intros Hs Hn H0. exists (repeat a (Z.to_nat n)). split; [ | split ].
  - rewrite constant_createArray_eq, Hs. cbn [bind fst snd]. rewrite Hn. cbn [bind].
    unfold np.full. destruct (Z.ltb_spec n 0); [ lia | reflexivity ].
  - rewrite size_repeat. lia.
  - apply Forall_forall. intros v Hv. exact (repeat_spec _ _ _ Hv).
Qed.

Lemma constant_createArray_samples_witness :
  exists out,
    returned (ConstantSegment.createArray 3)
      (sample_constant 0.003 no_delta {| mode := "Inc"; factor := 1; inc := 0.5 |}) = Ok out /\
    np.size out = 3 /\
    Forall (fun v => v = 1750%float) out.
Proof.
  apply (constant_createArray_samples
           (sample_constant 0.003 no_delta {| mode := "Inc"; factor := 1; inc := 0.5 |})
           3 0.003%float 1750 3).
  - reflexivity.
  - reflexivity.
  - lia.
Defined.

(** ** The ways calculateNumberOfPoints ends *)

Lemma is_finite_cases (x : float) :
  is_finite x = negb (is_nan x) && negb (is_infinity x).
Proof. unfold is_finite. destruct (is_nan x), (is_infinity x); reflexivity. Qed.

Lemma nan_not_infinity (x : float) : is_nan x = true -> is_infinity x = false.
Proof.
  intros N. apply is_nan_Prim2SF in N.
  destruct (is_infinity x) eqn:I; [ | reflexivity ].
  apply is_infinity_Prim2SF in I. destruct I as [s I]. congruence.
Qed.

Lemma math_trunc_cases (q : float) :
  math_trunc q
  = if is_nan q then Raise (ValueError [Lit "cannot convert float NaN to integer"])
    else if is_infinity q then Raise (OverflowError "cannot convert float infinity to integer")
    else math_trunc q.
Proof.
  unfold math_trunc, to_integer. destruct (is_nan q) eqn:N; [ reflexivity | ].
  destruct (is_infinity q) eqn:I; [ | reflexivity ].
  apply is_infinity_Prim2SF in I. destruct I as [s I]. unfold integer_ratio. rewrite I.
  reflexivity.
Qed.

(** X13.  The four ways [calculateNumberOfPoints] ends, each with its
    condition: [ZeroDivisionError] for a sample interval equal to zero;
    otherwise [ValueError] for a NaN quotient, [OverflowError] for an
    infinite one, and a number of points for a finite one. *)
Theorem calculateNumberOfPoints_outcomes (seg : segment) (duration : float) :
  let dt := Segment.sampleInterval (base_of seg) in
  let q := (duration / dt)%float in
  let r := returned (calculateNumberOfPoints duration) seg in
  (r = Raise (ZeroDivisionError "float division by zero") <-> (dt =? 0)%float = true) /\
  (r = Raise (ValueError [Lit "cannot convert float NaN to integer"])
   <-> (dt =? 0)%float = false /\ is_nan q = true) /\
  (r = Raise (OverflowError "cannot convert float infinity to integer")
   <-> (dt =? 0)%float = false /\ is_infinity q = true) /\
  ((exists k, r = Ok k) <-> (dt =? 0)%float = false /\ is_finite q = true).
Proof.
  cbv zeta. rewrite returned_calculateNumberOfPoints_seg. unfold truediv.
  set (dt := Segment.sampleInterval (base_of seg)).
  destruct (dt =? 0)%float; cbn [bind].
  - repeat split; intros; repeat match goal with
                           | H : _ /\ _ |- _ => destruct H
                           | H : exists _, _ |- _ => destruct H
                           end; try discriminate; reflexivity.
  - rewrite math_trunc_cases, is_finite_cases.
    destruct (is_nan (duration / dt)) eqn:N.
    + rewrite (nan_not_infinity _ N). cbn.
      repeat split; intros; repeat match goal with
                             | H : _ /\ _ |- _ => destruct H
                             | H : exists _, _ |- _ => destruct H
                             end; try discriminate; reflexivity.
    + destruct (is_infinity (duration / dt)) eqn:I; cbn.
      * repeat split; intros; repeat match goal with
                               | H : _ /\ _ |- _ => destruct H
                               | H : exists _, _ |- _ => destruct H
                               end; try discriminate; reflexivity.
      * destruct (to_integer_finite Z.quot (duration / dt)) as [k Hk].
        { rewrite is_finite_cases, N, I. reflexivity. }
        fold math_trunc in Hk. rewrite Hk.
        repeat split; intros; repeat match goal with
                               | H : _ /\ _ |- _ => destruct H
                               | H : exists _, _ |- _ => destruct H
                               end; try discriminate; eauto.
Qed.

(** ** A duration that is not negative *)

(** X14.  For a duration that is not negative and a positive sample
    interval, every number of points [calculateNumberOfPoints] returns
    is non-negative, and it returns one whenever the quotient is
    finite. *)
Theorem calculateNumberOfPoints_nonneg (seg : segment) (duration : float) :
  (0 <=? duration)%float = true ->
  (0 <? Segment.sampleInterval (base_of seg))%float = true ->
  (forall k, returned (calculateNumberOfPoints duration) seg = Ok k -> 0 <= k) /\
  (is_finite (duration / Segment.sampleInterval (base_of seg)) = true ->
   exists k, returned (calculateNumberOfPoints duration) seg = Ok k).
Proof.
  intros Hd Hdt. rewrite returned_calculateNumberOfPoints_seg, truediv_Ok by assumption.
  cbn [bind]. split.
  - intros k Hk. exact (trunc_div_nonneg _ _ _ Hd Hdt Hk).
  - intros F. exact (to_integer_finite Z.quot _ F).
Qed.

Lemma calculateNumberOfPoints_nonneg_witness :
  (forall k, returned (calculateNumberOfPoints 0.0105)
               (Constant (sample_constant 0.0105 no_delta no_delta)) = Ok k -> 0 <= k) /\
  (is_finite (0.0105 / 0.001) = true ->
   exists k, returned (calculateNumberOfPoints 0.0105)
               (Constant (sample_constant 0.0105 no_delta no_delta)) = Ok k).
Proof.
  apply (calculateNumberOfPoints_nonneg (Constant (sample_constant 0.0105 no_delta no_delta))
           0.0105%float); reflexivity.
Defined.

(** ** Every sample of a square segment *)

Lemma nth_error_concat_repeat {A} (c : list A) (m i : nat) :
  (i < m * List.length c)%nat ->
  nth_error (concat (repeat c m)) i = nth_error c (i mod List.length c).
Proof.
  revert i. induction m as [ | m IH ]; intros i Hi; [ lia | ].
  assert (0 < List.length c)%nat by (destruct (List.length c); lia).
  cbn [repeat concat]. destruct (Nat.ltb_spec i (List.length c)) as [L | L].
  - rewrite nth_error_app1 by assumption. rewrite Nat.mod_small by assumption. reflexivity.
  - rewrite nth_error_app2 by assumption. rewrite IH by (cbn in Hi; lia).
    f_equal. replace i with ((i - List.length c) + 1 * List.length c)%nat at 2 by lia.
    rewrite Nat.Div0.mod_add. reflexivity.
Qed.

Lemma nth_error_cycle (hi lo : float) (k i : Z) :
  0 <= i < k ->
  nth_error (repeat hi (Z.to_nat (k / 2)) ++ repeat lo (Z.to_nat (k - k / 2))) (Z.to_nat i)
  = Some (if i <? k / 2 then hi else lo).
Proof.
  intros Hi.
  assert (0 <= k / 2 <= k)
    by (split; [ apply Z.div_pos; lia | apply Z.div_le_upper_bound; lia ]).
  destruct (Z.ltb_spec i (k / 2)).
  - rewrite nth_error_app1 by (rewrite repeat_length; lia). apply nth_error_repeat. lia.
  - rewrite nth_error_app2 by (rewrite repeat_length; lia).
    apply nth_error_repeat. rewrite repeat_length. lia.
Qed.

Section SquareSamples.
Import SquareSegment SquareLocals.

Lemma nth_error_tiled (self : t) (k m i : Z) (cycle tile : np.ndarray) :
  numPointsCycle self = Ok k -> oneCycle self k = Ok cycle -> np.tile cycle m = Ok tile ->
  0 <= i < np.size tile ->
  np.size tile = k * m /\
  nth_error tile (Z.to_nat i) = Some (square_sample self k m i).
Proof.
  intros Hk Hc Ht Hi.
  pose proof (tile_size _ _ _ Ht) as Hs.
  destruct (oneCycle_size _ _ _ Hc) as [Hk0 Hck]. rewrite Hck in Hs.
  split; [ exact Hs | ].
  rewrite (oneCycle_Ok self k Hk Hk0) in Hc. injection Hc as Hc.
  unfold np.tile in Ht. destruct cycle as [ | x cycle' ] eqn:Ec.
  { injection Ht as <-. cbn in Hi. lia. }
  rewrite <- Ec in *. clear Ec x cycle'.
  destruct (Z.ltb_spec m 0); [ discriminate | ]. injection Ht as <-.
  unfold np.size in Hck.
  assert (0 < k) by nia.
  rewrite nth_error_concat_repeat by (apply Nat2Z.inj_lt; rewrite Nat2Z.inj_mul; lia).
  replace (Z.to_nat i mod List.length cycle)%nat with (Z.to_nat (i mod k)).
  2:{ apply Nat2Z.inj. rewrite Nat2Z.inj_mod, !Z2Nat.id, Hck; try lia.
      apply Z.mod_pos_bound; lia. }
  rewrite <- Hc. rewrite nth_error_cycle by (apply Z.mod_pos_bound; lia).
  unfold square_sample. destruct (Z.ltb_spec i (k * m)); [ reflexivity | lia ].
Qed.

(** X17.  Every sample of the array a square segment returns: sample
    [i] is the scaled [posAmp] when [i mod k < k / 2], its scaled
    negation otherwise, as long as [i] lies within the [m] cycles of [k]
    samples, and [0.0] past them. *)
Theorem square_createArray_samples (self : t) (sweep k m : Z) (out : np.ndarray) :
  returned (createArray sweep) self = Ok out ->
  numPointsCycle self = Ok k -> numCycles self = Ok m ->
  forall i, 0 <= i < np.size out ->
    nth_error out (Z.to_nat i) = Some (square_sample self k m i).
Proof.
  intros H Hk Hm i Hi. rewrite square_createArray_eq in H.
  apply bind_Ok in H. destruct H as (n & Hn & H). rewrite Hk in H. cbn [bind] in H.
  apply bind_Ok in H. destruct H as (cycle & Hc & H). rewrite Hm in H. cbn [bind] in H.
  apply bind_Ok in H. destruct H as (tile & Ht & H).
  pose proof (resize_size _ _ _ _ H) as Hsz.
  assert (Hin : forall j, 0 <= j < np.size tile ->
                  nth_error tile (Z.to_nat j) = Some (square_sample self k m j))
    by (intros j Hj; apply (nth_error_tiled self k m j cycle tile); assumption).
  assert (Hs : np.size tile = k * m).
  { pose proof (tile_size _ _ _ Ht) as Hs.
    destruct (oneCycle_size _ _ _ Hc) as [_ Hck]. congruence. }
  unfold np.resize in H. destruct (Z.ltb_spec n 0); [ discriminate | ].
  destruct (Z.eqb_spec n (np.size tile)).
  { injection H as <-. apply Hin. assumption. }
  destruct (np.tile_owndata m); [ | discriminate ]. injection H as <-.
  unfold np.size in *.
  destruct (Z.ltb_spec i (Z.of_nat (List.length tile))) as [L | L].
  - rewrite nth_error_app1 by (rewrite length_firstn; lia).
    rewrite nth_error_firstn. destruct (Nat.ltb_spec (Z.to_nat i) (Z.to_nat n)); [ | lia ].
    apply Hin. lia.
  - rewrite nth_error_app2 by (rewrite length_firstn; lia).
    rewrite length_firstn. rewrite nth_error_repeat by (rewrite length_app, length_firstn, repeat_length in Hi; lia).
    unfold square_sample. destruct (Z.ltb_spec i (k * m)); [ lia | reflexivity ].
Qed.

Lemma square_createArray_samples_witness :
  nth_error [500%float; 500%float; (-500)%float] (Z.to_nat 2)
  = Some (square_sample (sample_square 0.004 0.003) 4 1 2).
Proof.
  apply (square_createArray_samples (sample_square 0.004 0.003) 0 4 1).
  - reflexivity.
  - reflexivity.
  - reflexivity.
  - cbn. lia.
Defined.

End SquareSamples.

(** ** The length of a chirp *)

Lemma linspace_size (start stop : float) (n : Z) (x : np.ndarray) :
  np.linspace start stop n = Ok x -> np.size x = n.
Proof.
  destruct (Z.ltb_spec n 0) as [L | L].
  - unfold np.linspace. destruct (Z.ltb_spec n 0); [ discriminate | lia ].
  - rewrite linspace_Ok by assumption. cbv zeta. intros [= <-].
    destruct (1 <? n); [ rewrite size_set_last | ]; unfold np.size;
      rewrite length_map, length_seq; lia.
Qed.

Lemma scale_size (v : float) (a : np.ndarray) : np.size (np.scale v a) = np.size a.
Proof. unfold np.size, np.scale. rewrite length_map. reflexivity. Qed.

Section ChirpLength.

Variable chirp : chirp_function.

(** [scipy.signal.chirp] returns one sample for each time it is given. *)
Hypothesis chirp_shape :
  forall t f0 t1 f1 method phi w, chirp t f0 t1 f1 method phi = Ok w -> np.size w = np.size t.

(** X20.  Given a waveform function that returns one sample per time,
    a chirp segment returns as many samples as the stepped duration has
    points. *)
Theorem chirp_createArray_length (self : ChirpSegment.t) (sweep : Z) (out : np.ndarray) :
  returned (ChirpSegment.createArray chirp sweep) self = Ok out ->
  exists d a,
    returned (Segment.doStepping sweep) self = Ok (d, a) /\
    returned (Segment.calculateNumberOfPoints d) self = Ok (np.size out).
Proof.
  intros H. rewrite chirp_createArray_eq in H.
  apply bind_Ok in H. destruct H as ([d a] & Hs & H). cbn [fst snd] in H.
  apply bind_Ok in H. destruct H as (n & Hn & H).
  apply bind_Ok in H. destruct H as (x & Hx & H).
  apply bind_Ok in H. destruct H as (method & _ & H).
  apply bind_Ok in H. destruct H as (wave & Hw & [= <-]).
  exists d, a. split; [ exact Hs | ].
  rewrite scale_size, (chirp_shape _ _ _ _ _ _ _ Hw), (linspace_size _ _ _ _ Hx). exact Hn.
Qed.

End ChirpLength.

Lemma sample_chirp_function_shape :
  forall t f0 t1 f1 method phi w,
    sample_chirp_function t f0 t1 f1 method phi = Ok w -> np.size w = np.size t.
Proof.
  intros t f0 t1 f1 method phi w [= <-]. unfold np.size. rewrite length_map. reflexivity.
Qed.

Lemma chirp_createArray_length_witness :
  exists d a,
    returned (Segment.doStepping 0) (sample_chirp_segment "Linear" 0.003 no_delta no_delta)
    = Ok (d, a) /\
    returned (Segment.calculateNumberOfPoints d)
      (sample_chirp_segment "Linear" 0.003 no_delta no_delta)
    = Ok (np.size [500%float; 500%float; 500%float]).
Proof.
  apply (chirp_createArray_length sample_chirp_function sample_chirp_function_shape
           (sample_chirp_segment "Linear" 0.003 no_delta no_delta) 0).
  reflexivity.
Defined.

(** ** From the records to the samples of a constant segment *)

(** X16.  From the records to the samples.  For a segment record of
    class ["Constant"] whose amplitude, taken from [Voltage] or from the
    holding value according to the voltage source, is stepped in mode
    [Inc] while the duration is not stepped, [getSegmentClass] returns a
    segment, and at sweep [k] that segment returns [n] samples equal to
    [(amplitude + increment * k) * 1000]. *)
Theorem constant_end_to_end
    (chirp : chirp_function)
    (stimRec : StimulationRecord) (channelRec : ChannelRecordStimulus)
    (segmentRec : StimSegmentRecord) (sweep n : Z) (amplitude : float) :
  Class_ segmentRec = "Constant"%string ->
  (VoltageSource segmentRec = "Constant"%string /\ amplitude = Voltage segmentRec) \/
  (VoltageSource segmentRec = "Hold"%string /\ amplitude = Holding channelRec) ->
  (DeltaTFactor segmentRec =? 1)%float = true ->
  (DeltaTIncrement segmentRec =? 0)%float = true ->
  VoltageIncMode segmentRec = "Inc"%string ->
  (DeltaVIncrement segmentRec =? 0)%float = false ->
  is_finite (Z2float sweep) = true ->
  (q <~ truediv (Duration segmentRec) (SampleInterval stimRec) ;; math_trunc q) = Ok n ->
  0 <= n ->
  exists seg,
    getSegmentClass stimRec channelRec segmentRec = Ok seg /\
    returned (createArray chirp sweep) seg
    = Ok (repeat ((amplitude + DeltaVIncrement segmentRec * Z2float sweep) * 1000)%float
            (Z.to_nat n)).
Proof.
  intros Hc Hv Ht1 Ht2 Hm Hi Hf Hn H0.
  assert (Hv' : voltage_source channelRec segmentRec = Ok amplitude).
  { unfold voltage_source. destruct Hv as [[-> ->] | [-> ->]]; reflexivity. }
  clear Hv. rename Hv' into Hv.
  exists (Constant {| ConstantSegment.base := Segment.__init__ stimRec channelRec segmentRec;
                      ConstantSegment.amplitude := amplitude |}).
  split.
  - unfold getSegmentClass. rewrite Hc. cbn [String.eqb Ascii.eqb Bool.eqb].
    unfold ConstantSegment.__init__. rewrite Hv. reflexivity.
  - rewrite returned_createArray_seg, returned_doStepping_seg.
    cbn [amplitude_of Segment.self_amplitude ConstantSegment.object ConstantSegment.amplitude
         base_of ConstantSegment.base Segment.__init__ Segment.xDelta Segment.yDelta
         Segment.duration Segment.amplitudeScale bind].
    rewrite applyDelta_inactive
      by (unfold Segment._hasDelta; cbn [factor inc]; rewrite Ht1, Ht2; reflexivity).
    cbn [bind]. unfold Segment._applyDelta, Segment._hasDelta. cbn [factor inc mode].
    rewrite Hi, Hm, orb_true_r. cbn [negb String.eqb Ascii.eqb Bool.eqb].
    rewrite (float_of_int_finite _ Hf). cbn [bind fst snd].
    rewrite returned_calculateNumberOfPoints_seg.
    cbn [base_of ConstantSegment.base Segment.__init__ Segment.sampleInterval].
    rewrite Hn. cbn [bind]. unfold np.full. destruct (Z.ltb_spec n 0); [ lia | reflexivity ].
Qed.

Lemma constant_end_to_end_witness :
  exists seg,
    getSegmentClass (sample_stim 0.001) (sample_channel 0.02 "Common Frequency")
      (sample_segment "Constant" 0.003 no_delta {| mode := "Inc"; factor := 1; inc := 0.5 |})
    = Ok seg /\
    returned (createArray sample_chirp_function 3) seg
    = Ok (repeat ((0.25 + 0.5 * Z2float 3) * 1000)%float (Z.to_nat 3)).
Proof.
  apply (constant_end_to_end sample_chirp_function (sample_stim 0.001)
           (sample_channel 0.02 "Common Frequency")
           (sample_segment "Constant" 0.003 no_delta {| mode := "Inc"; factor := 1; inc := 0.5 |})
           3 3 0.25%float); try reflexivity.
  - left. split; reflexivity.
  - lia.
Defined.

(** ** The scaling of a negated amplitude *)

Lemma binary_round_aux_opp (sx : bool) (mx ex : Z) (lx : location) :
  binary_round_aux prec emax (negb sx) mx ex lx = SFopp (binary_round_aux prec emax sx mx ex lx).
Proof.
  unfold binary_round_aux.
  destruct (shr_fexp prec emax mx ex lx) as [mrs' e'].
  destruct (shr_fexp prec emax _ e' loc_Exact) as [mrs'' e''].
  destruct (shr_m mrs''); [ reflexivity | | reflexivity ].
  destruct (e'' <=? emax - prec); reflexivity.
Qed.

Lemma mul_opp_l (x y : float) : (- x * y)%float = (- (x * y))%float.
Proof.
  apply Prim2SF_inj. rewrite opp_spec, !mul_spec, opp_spec.
  destruct (Prim2SF x) as [sx | sx | | sx mx ex], (Prim2SF y) as [sy | sy | | sy my ey];
    cbn [SFopp SF64mul SFmul]; try reflexivity;
    try (destruct sx, sy; reflexivity).
  change (xorb (negb sx) sy) with (xorb (negb sx) sy).
  replace (xorb (negb sx) sy) with (negb (xorb sx sy)) by (destruct sx, sy; reflexivity).
  apply binary_round_aux_opp.
Qed.

(** ** No overflow in a quotient by an integer *)

Lemma shr_1_m (r : shr_record) : 0 <= shr_m r -> shr_m (shr_1 r) = shr_m r / 2.
Proof.
  destruct r as [m r s]. cbn [shr_m]. intros Hm.
  destruct m as [ | [p | p | ] | p ]; try lia; cbn [shr_1 shr_m].
  - reflexivity.
  - apply (Z.div_unique (Zpos p~1) 2 (Zpos p) 1); lia.
  - apply (Z.div_unique (Zpos p~0) 2 (Zpos p) 0); lia.
  - reflexivity.
Qed.

Lemma iter_shr_1_m (n : nat) (r : shr_record) :
  0 <= shr_m r -> shr_m (Nat.iter n shr_1 r) = shr_m r / 2 ^ Z.of_nat n.
Proof.
  intros Hm. induction n as [ | n IH ].
  - cbn. rewrite Z.div_1_r. reflexivity.
  - rewrite Nat.iter_succ, shr_1_m.
    + rewrite IH, Z.div_div, Nat2Z.inj_succ, Z.pow_succ_r by (try apply Z.pow_pos_nonneg; lia).
      f_equal. lia.
    + rewrite IH. apply Z.div_pos; [ assumption | apply Z.pow_pos_nonneg; lia ].
Qed.

(** The mantissa and the exponent after the shift that brings a
    mantissa into the format. *)
Lemma shr_fexp_m (m e : Z) (l : location) :
  0 <= m ->
  let k := Z.max 0 (fexp prec emax (Zdigits2 m + e) - e) in
  shr_m (fst (shr_fexp prec emax m e l)) = m / 2 ^ k /\
  snd (shr_fexp prec emax m e l) = e + k.
Proof.
  intros Hm k. unfold shr_fexp, shr. subst k.
  assert (Hr : shr_m (shr_record_of_loc m l) = m) by (destruct l as [ | [ | | ] ]; reflexivity).
  destruct (fexp prec emax (Zdigits2 m + e) - e) as [ | p | p ] eqn:E; cbn [fst snd].
  - rewrite Hr. cbn. rewrite Z.div_1_r. split; [ reflexivity | lia ].
  - rewrite iter_pos_nat, iter_shr_1_m, Hr, positive_nat_Z by (rewrite Hr; assumption).
    rewrite Z.max_r by lia. split; reflexivity.
  - rewrite Hr. rewrite Z.max_l by lia. cbn. rewrite Z.div_1_r. split; [ reflexivity | lia ].
Qed.

Lemma Zdigits2_nonneg (m : Z) : 0 <= Zdigits2 m.
Proof. destruct m; cbn; lia. Qed.

(** [Zdigits2 m <= d] says that [m] fits in [d] bits. *)
Lemma Zdigits2_le (m d : Z) : 0 <= m -> 0 <= d -> (Zdigits2 m <= d <-> m < 2 ^ d).
Proof.
  intros Hm Hd. destruct m as [ | p | p ]; try lia.
  - cbn. pose proof (Z.pow_pos_nonneg 2 d ltac:(lia) Hd). lia.
  - rewrite Zdigits2_log2. rewrite (Z.log2_lt_pow2 (Zpos p) d) by lia. lia.
Qed.

Lemma Zdigits2_lt_pow2 (m : Z) : 0 <= m -> m < 2 ^ Zdigits2 m.
Proof. intros Hm. apply Zdigits2_le; [ assumption | apply Zdigits2_nonneg | lia ]. Qed.

Lemma round_nearest_even_bounds (m : Z) (l : location) :
  m <= round_nearest_even m l <= m + 1.
Proof. destruct l as [ | [ | | ] ]; cbn; try destruct (Z.even m); lia. Qed.

Lemma fexp_le (x b : Z) : x <= b + 53 -> - 1074 <= b -> fexp prec emax x <= b.
Proof. unfold fexp, SpecFloat.emin, prec, emax. lia. Qed.

(** Rounding a mantissa whose value is below [2 ^ 1023] gives a zero or
    a finite float. *)
Lemma binary_round_aux_finite (sx : bool) (m e : Z) (l : location) :
  0 <= m -> Zdigits2 m + e <= 1023 -> e <= 970 ->
  match binary_round_aux prec emax sx m e l with
  | S754_zero _ | S754_finite _ _ _ => True
  | S754_infinity _ | S754_nan => False
  end.
Proof.
  intros Hm Hd He. unfold binary_round_aux.
  pose proof (shr_fexp_m m e l Hm) as [M1 E1]. cbv zeta in M1, E1.
  destruct (shr_fexp prec emax m e l) as [mrs' e']. cbn [fst snd] in M1, E1.
  set (k := Z.max 0 (fexp prec emax (Zdigits2 m + e) - e)) in *.
  assert (Hk : 0 <= k) by (subst k; lia).
  assert (Hp : 0 < 2 ^ k) by (apply Z.pow_pos_nonneg; lia).
  assert (H1 : 0 <= shr_m mrs') by (rewrite M1; apply Z.div_pos; lia).
  assert (He' : e' <= 970).
  { rewrite E1. subst k. pose proof (fexp_le (Zdigits2 m + e) 970). lia. }
  assert (Hd1 : Zdigits2 (shr_m mrs') + e' <= 1023).
  { pose proof (Zdigits2_nonneg m) as D0.
    destruct (Z.le_gt_cases k (Zdigits2 m)) as [L | L].
    - assert (Zdigits2 (shr_m mrs') <= Zdigits2 m - k); [ | lia ].
      apply Zdigits2_le; [ assumption | lia | ].
      rewrite M1. apply Z.div_lt_upper_bound; [ assumption | ].
      rewrite <- Z.pow_add_r by lia. replace (k + (Zdigits2 m - k)) with (Zdigits2 m) by lia.
      apply Zdigits2_lt_pow2. assumption.
    - assert (shr_m mrs' = 0) as ->; [ | cbn; lia ].
      rewrite M1. apply Z.div_small. split; [ assumption | ].
      apply Z.lt_le_trans with (2 ^ Zdigits2 m); [ apply Zdigits2_lt_pow2; assumption | ].
      apply Z.pow_le_mono_r; lia. }
  set (m2 := round_nearest_even (shr_m mrs') (loc_of_shr_record mrs')).
  pose proof (round_nearest_even_bounds (shr_m mrs') (loc_of_shr_record mrs')) as B. fold m2 in B.
  assert (H2 : 0 <= m2) by lia.
  assert (Hd2 : Zdigits2 m2 + e' <= 1024).
  { pose proof (Zdigits2_nonneg (shr_m mrs')) as D0.
    assert (Zdigits2 m2 <= Zdigits2 (shr_m mrs') + 1); [ | lia ].
    apply Zdigits2_le; [ assumption | lia | ].
    pose proof (Zdigits2_lt_pow2 (shr_m mrs') H1).
    rewrite Z.pow_add_r, Z.pow_1_r by lia. lia. }
  pose proof (shr_fexp_m m2 e' loc_Exact H2) as [M3 E3]. cbv zeta in M3, E3.
  destruct (shr_fexp prec emax m2 e' loc_Exact) as [mrs'' e'']. cbn [fst snd] in M3, E3.
  set (k' := Z.max 0 (fexp prec emax (Zdigits2 m2 + e') - e')) in *.
  assert (H3 : 0 <= shr_m mrs'')
    by (rewrite M3; apply Z.div_pos; [ assumption | apply Z.pow_pos_nonneg; subst k'; lia ]).
  destruct (shr_m mrs'') as [ | p | p ]; [ exact I | | lia ].
  change (emax - prec) with 971.
  replace (e'' <=? 971) with true; [ exact I | ].
  symmetry. apply Z.leb_le. rewrite E3. subst k'.
  pose proof (fexp_le (Zdigits2 m2 + e') 971). lia.
Qed.

(** The quotient of two mantissas, before it is rounded: it is below
    [2 ^ 1023] as soon as the divisor is at least 2. *)
Lemma SFdiv_core_binary_bound (ma my : positive) (ea ey : Z) :
  Zdigits2 (Zpos ma) + ea <= 1024 -> Z.log2 (Zpos my) = 52 -> - 51 <= ey ->
  let '(q, e', _) := SFdiv_core_binary prec emax (Zpos ma) ea (Zpos my) ey in
  0 <= q /\ Zdigits2 q + e' <= 1023 /\ e' <= 970.
Proof.
  intros Ha Hy He. unfold SFdiv_core_binary.
  rewrite (Zdigits2_log2 my), Hy.
  set (d1 := Zdigits2 (Zpos ma)) in *.
  set (e' := Z.min (fexp prec emax (d1 + ea - (52 + 1 + ey))) (ea - ey)).
  assert (He' : e' <= 969).
  { subst e'. pose proof (fexp_le (d1 + ea - (52 + 1 + ey)) 969). lia. }
  set (s := ea - ey - e'). assert (Hs : 0 <= s) by (subst s e'; lia).
  replace (match s with Z0 => Zpos ma | Zpos _ => Z.shiftl (Zpos ma) s | Zneg _ => 0 end)
    with (Zpos ma * 2 ^ s)
    by (destruct s; [ cbn; lia | rewrite Z.shiftl_mul_pow2; lia | lia ]).
  pose proof (Z_div_mod (Zpos ma * 2 ^ s) (Zpos my) ltac:(lia)) as D.
  destruct (Z.div_eucl (Zpos ma * 2 ^ s) (Zpos my)) as [q r]. destruct D as [D R].
  assert (Hps : 0 < 2 ^ s) by (apply Z.pow_pos_nonneg; lia).
  assert (Hq : 0 <= q) by nia.
  split; [ exact Hq | split; [ | lia ] ].
  assert (Hd1 : 0 <= d1) by apply Zdigits2_nonneg.
  assert (Hma : Zpos ma < 2 ^ d1) by (apply Zdigits2_lt_pow2; lia).
  assert (Hmy : 2 ^ 52 <= Zpos my) by (rewrite <- Hy; apply Z.log2_spec; lia).
  assert (Hlt : q * 2 ^ 52 < 2 ^ (d1 + s)).
  { rewrite Z.pow_add_r by lia. nia. }
  destruct (Z.le_gt_cases 52 (d1 + s)) as [L | L].
  - assert (Zdigits2 q <= d1 + s - 52); [ | subst s; lia ].
    apply Zdigits2_le; [ assumption | lia | ].
    replace (d1 + s) with (d1 + s - 52 + 52) in Hlt by lia.
    rewrite Z.pow_add_r in Hlt by lia. nia.
  - assert (q = 0) as ->; [ | cbn; lia ].
    assert (2 ^ (d1 + s) <= 2 ^ 52) by (apply Z.pow_le_mono_r; lia). nia.
Qed.

(** [float(j)] for an integer [j >= 1]: plus infinity beyond the range,
    and otherwise a normal float that is at least 1, and at least 2
    when [j] is. *)
Lemma Z2float_exact (p : positive) :
  Z.log2 (Zpos p) <= 52 ->
  exists m, Z.log2 (Zpos m) = 52 /\ Zpos m = Zpos p * 2 ^ (52 - Z.log2 (Zpos p)) /\
            Prim2SF (Z2float (Zpos p)) = S754_finite false m (Z.log2 (Zpos p) - 52).
Proof.
  intros Hl. pose proof (Z.log2_nonneg (Zpos p)) as H0.
  set (L := Z.log2 (Zpos p)) in *.
  unfold Z2float, binary_normalize, binary_round.
  change (Zpos (digits2_pos p)) with (Zdigits2 (Zpos p)). rewrite Zdigits2_log2. fold L.
  replace (fexp prec emax (L + 1 + 0)) with (L - 52)
    by (unfold fexp, SpecFloat.emin, prec, emax; lia).
  unfold shl_align. rewrite Z.sub_0_r.
  destruct (L - 52) as [ | q | q ] eqn:E; try lia.
  - exists p. assert (L = 52) as HL by lia. split; [ exact HL | ]. split.
    + rewrite HL. cbn. lia.
    + rewrite <- (Z.mul_1_r (Zpos p)) at 1. change 1 with (2 ^ 0) at 1.
      rewrite binary_round_aux_exact by (try exact HL; lia).
      apply Prim2SF_SF2Prim_normal; [ exact HL | lia ].
  - change (Pos.iter xO p q) with (shift_pos q p).
    assert (Hm : Zpos (shift_pos q p) = Zpos p * 2 ^ (52 - L)).
    { rewrite shift_pos_correct, Z.pow_pos_fold. replace (52 - L) with (Zpos q) by lia. lia. }
    assert (Hlog : Z.log2 (Zpos (shift_pos q p)) = 52).
    { rewrite Hm, <- Z.shiftl_mul_pow2, Z.log2_shiftl by lia. fold L. lia. }
    exists (shift_pos q p). split; [ exact Hlog | ]. split; [ exact Hm | ].
    rewrite <- (Z.mul_1_r (Zpos (shift_pos q p))). change 1 with (2 ^ 0) at 1.
    rewrite binary_round_aux_exact by (assumption || lia).
    rewrite Z.add_0_r. apply Prim2SF_SF2Prim_normal; [ exact Hlog | lia ].
Qed.

Lemma Z2float_large (p : positive) :
  52 < Z.log2 (Zpos p) ->
  Prim2SF (Z2float (Zpos p)) = S754_infinity false \/
  exists m e, Prim2SF (Z2float (Zpos p)) = S754_finite false m e /\
              Z.log2 (Zpos m) = 52 /\ 1 <= e.
Proof.
  intros Hl. set (L := Z.log2 (Zpos p)) in *.
  unfold Z2float, binary_normalize, binary_round.
  change (Zpos (digits2_pos p)) with (Zdigits2 (Zpos p)). rewrite Zdigits2_log2. fold L.
  replace (fexp prec emax (L + 1 + 0)) with (L - 52)
    by (unfold fexp, SpecFloat.emin, prec, emax; lia).
  unfold shl_align. rewrite Z.sub_0_r.
  destruct (L - 52) as [ | q | q ] eqn:E; try lia.
  unfold binary_round_aux.
  pose proof (shr_fexp_m (Zpos p) 0 loc_Exact ltac:(lia)) as [M1 E1]. cbv zeta in M1, E1.
  rewrite Zdigits2_log2 in M1, E1. fold L in M1, E1.
  replace (fexp prec emax (L + 1 + 0) - 0) with (L - 52) in M1, E1
    by (unfold fexp, SpecFloat.emin, prec, emax; lia).
  rewrite Z.max_r in M1, E1 by lia.
  destruct (shr_fexp prec emax (Zpos p) 0 loc_Exact) as [mrs' e']. cbn [fst snd] in M1, E1.
  assert (Hp : 2 ^ L <= Zpos p < 2 ^ (L + 1)) by (apply Z.log2_spec; lia).
  assert (H1 : 2 ^ 52 <= shr_m mrs' < 2 ^ 53).
  { rewrite M1. replace L with (52 + (L - 52)) in Hp at 1 by lia.
    replace (L + 1) with (53 + (L - 52)) in Hp by lia.
    rewrite !Z.pow_add_r in Hp by lia.
    assert (0 < 2 ^ (L - 52)) by (apply Z.pow_pos_nonneg; lia).
    split; [ apply Z.div_le_lower_bound; lia | apply Z.div_lt_upper_bound; lia ]. }
  pose proof (round_nearest_even_bounds (shr_m mrs') (loc_of_shr_record mrs')) as B.
  remember (round_nearest_even (shr_m mrs') (loc_of_shr_record mrs')) as m2 eqn:Em2.
  clear Em2.
  pose proof (shr_fexp_m m2 e' loc_Exact ltac:(lia)) as [M3 E3]. cbv zeta in M3, E3.
  destruct (shr_fexp prec emax m2 e' loc_Exact) as [mrs'' e'']. cbn [fst snd] in M3, E3.
  assert (Hcases : (shr_m mrs'' = m2 /\ e'' = e' /\ m2 < 2 ^ 53) \/
                   (shr_m mrs'' = 2 ^ 52 /\ e'' = e' + 1)).
  { destruct (Z.eq_dec m2 (2 ^ 53)) as [C | C].
    - right. rewrite C in M3, E3. change (Zdigits2 (2 ^ 53)) with 54 in M3, E3.
      replace (fexp prec emax (54 + e') - e') with 1 in M3, E3
        by (unfold fexp, SpecFloat.emin, prec, emax; lia).
      split; [ rewrite M3; reflexivity | lia ].
    - left. assert (Hd : Zdigits2 m2 = 53).
      { destruct m2 as [ | m2' | m2' ]; try lia.
        rewrite Zdigits2_log2. enough (Z.log2 (Zpos m2') = 52) by lia.
        apply Z.log2_unique; [ lia | ]. change (2 ^ (52 + 1)) with (2 ^ 53). lia. }
      rewrite Hd in M3, E3.
      replace (fexp prec emax (53 + e') - e') with 0 in M3, E3
        by (unfold fexp, SpecFloat.emin, prec, emax; lia).
      cbn in M3. rewrite Z.div_1_r in M3. split; [ exact M3 | ]. split; lia. }
  assert (Hm3 : 2 ^ 52 <= shr_m mrs'' < 2 ^ 53) by (destruct Hcases as [(-> & _ & ?) | (-> & _)]; lia).
  assert (He3 : 1 <= e'') by lia.
  destruct (shr_m mrs'') as [ | m3 | m3 ] eqn:Em3; try lia.
  assert (Hlog : Z.log2 (Zpos m3) = 52)
    by (apply Z.log2_unique; [ lia | change (2 ^ (52 + 1)) with (2 ^ 53); lia ]).
  change (emax - prec) with 971.
  destruct (Z.leb_spec e'' 971).
  - right. exists m3, e''. split; [ | split; assumption ].
    apply Prim2SF_SF2Prim_normal; [ assumption | lia ].
  - left. apply Prim2SF_SF2Prim. reflexivity.
Qed.

(** Rounding the mantissa of a float of the format changes nothing. *)
Lemma binary_round_aux_valid (sx : bool) (m : positive) (e : Z) :
  fexp prec emax (Zdigits2 (Zpos m) + e) = e -> e <= 971 ->
  binary_round_aux prec emax sx (Zpos m) e loc_Exact = S754_finite sx m e.
Proof.
  intros Hc He. unfold binary_round_aux, shr_fexp. rewrite Hc, Z.sub_diag.
  cbn [shr shr_record_of_loc shr_m loc_of_shr_record round_nearest_even].
  rewrite Hc, Z.sub_diag. cbn [shr shr_record_of_loc shr_m].
  change (emax - prec) with 971.
  destruct (Z.leb_spec e 971); [ reflexivity | lia ].
Qed.

Lemma div_eucl_exact (a b : Z) : 0 < b -> Z.div_eucl (a * b) b = (a, 0).
Proof.
  intros Hb. pose proof (Z_div_mod (a * b) b ltac:(lia)) as D.
  destruct (Z.div_eucl (a * b) b) as [q r]. destruct D as [D R].
  assert (q = a) by nia. subst q. f_equal. lia.
Qed.

(** A float divided by [1.0] is that float. *)
Lemma div_one (a : float) : (a / 1)%float = a.
Proof.
  apply Prim2SF_inj. rewrite div_spec. change (Prim2SF 1) with (S754_finite false 4503599627370496 (-52)).
  destruct (Prim2SF a) as [s | s | | s m e] eqn:E; cbn [SF64div SFdiv].
  - destruct s; reflexivity.
  - destruct s; reflexivity.
  - reflexivity.
  - unfold SF64div, SFdiv. rewrite xorb_false_r.
    pose proof (Prim2SF_valid a) as V. rewrite E in V.
    cbn [SpecFloat.valid_binary] in V. unfold bounded, canonical_mantissa in V.
    apply andb_prop in V. destruct V as [V1 V2].
    apply Z.eqb_eq in V1. apply Z.leb_le in V2.
    change (Zpos (digits2_pos m)) with (Zdigits2 (Zpos m)) in V1.
    change (emax - prec) with 971 in V2.
    pose proof (Z.log2_nonneg (Zpos m)) as L0.
    assert (Hd : Zdigits2 (Zpos m) = Z.log2 (Zpos m) + 1) by apply Zdigits2_log2.
    unfold SFdiv_core_binary. change (Zdigits2 4503599627370496) with 53.
    set (d1 := Zdigits2 (Zpos m)) in *.
    destruct (Z.eq_dec d1 53) as [N | N]; [ destruct (Z.eq_dec e (- 1074)) as [S | S] | ].
    + (* the least normal exponent *)
      replace (Z.min (fexp prec emax (d1 + e - (53 + -52))) (e - -52)) with e
        by (unfold fexp, SpecFloat.emin, prec, emax in *; lia).
      replace (e - -52 - e) with 52 by lia. rewrite Z.shiftl_mul_pow2 by lia.
      rewrite div_eucl_exact by lia. change (new_location 4503599627370496 0) with loc_Exact.
      apply binary_round_aux_valid; assumption.
    + (* a normal float *)
      replace (Z.min (fexp prec emax (d1 + e - (53 + -52))) (e - -52)) with (e - 1)
        by (unfold fexp, SpecFloat.emin, prec, emax in *; lia).
      replace (e - -52 - (e - 1)) with 53 by lia. rewrite Z.shiftl_mul_pow2 by lia.
      replace (Zpos m * 2 ^ 53) with ((Zpos m * 2 ^ 1) * 4503599627370496) by lia.
      rewrite div_eucl_exact by lia. change (new_location 4503599627370496 0) with loc_Exact.
      rewrite binary_round_aux_exact.
      * f_equal. lia.
      * lia.
      * lia.
      * unfold fexp, SpecFloat.emin, prec, emax in *. lia.
    + (* a subnormal float *)
      replace (Z.min (fexp prec emax (d1 + e - (53 + -52))) (e - -52)) with e
        by (unfold fexp, SpecFloat.emin, prec, emax in *; lia).
      replace (e - -52 - e) with 52 by lia. rewrite Z.shiftl_mul_pow2 by lia.
      rewrite div_eucl_exact by lia. change (new_location 4503599627370496 0) with loc_Exact.
      apply binary_round_aux_valid; assumption.
Qed.

Lemma is_finite_of_SF (x : float) :
  match Prim2SF x with
  | S754_zero _ | S754_finite _ _ _ => True
  | S754_infinity _ | S754_nan => False
  end ->
  is_finite x = true.
Proof.
  intros H. rewrite is_finite_cases.
  destruct (is_nan x) eqn:N.
  { apply is_nan_Prim2SF in N. rewrite N in H. contradiction. }
  destruct (is_infinity x) eqn:I; [ | reflexivity ].
  apply is_infinity_Prim2SF in I. destruct I as [s I]. rewrite I in H. contradiction.
Qed.

(** A finite float divided by the float of an integer [j >= 1] is
    finite. *)
Lemma div_int_finite (a : float) (j : Z) :
  is_finite a = true -> 1 <= j -> is_finite (a / Z2float j) = true.
Proof.
  intros Ha Hj. destruct (Z.eq_dec j 1) as [-> | H1].
  { change (Z2float 1) with 1%float. rewrite div_one. exact Ha. }
  destruct j as [ | p | p ]; try lia.
  assert (HL : 1 <= Z.log2 (Zpos p)) by (apply Z.log2_le_pow2; lia).
  assert (Hy : Prim2SF (Z2float (Zpos p)) = S754_infinity false \/
               exists m e, Prim2SF (Z2float (Zpos p)) = S754_finite false m e /\
                           Z.log2 (Zpos m) = 52 /\ - 51 <= e).
  { destruct (Z.le_gt_cases (Z.log2 (Zpos p)) 52) as [L | L].
    - destruct (Z2float_exact p L) as (m & Hm & _ & E). right. exists m, (Z.log2 (Zpos p) - 52).
      repeat split; [ exact E | exact Hm | lia ].
    - destruct (Z2float_large p L) as [E | (m & e & E & Hm & He)]; [ left; exact E | ].
      right. exists m, e. repeat split; [ exact E | exact Hm | lia ]. }
  apply is_finite_of_SF. rewrite div_spec. unfold SF64div.
  destruct (is_finite_SF a Ha) as [(s & Ea) | (s & ma & ea & Ea)]; rewrite Ea.
  - destruct Hy as [-> | (m & e & -> & _)]; exact I.
  - destruct Hy as [-> | (m & e & -> & Hm & He)]; [ exact I | ].
    cbn [SFdiv].
    pose proof (valid_finite _ _ _ _ Ea) as [Hc Hea].
    pose proof (SFdiv_core_binary_bound ma m ea e) as B.
    rewrite Zdigits2_log2 in B. specialize (B ltac:(lia) Hm He).
    destruct (SFdiv_core_binary prec emax (Zpos ma) ea (Zpos m) e) as [[q e'] l].
    destruct B as (Hq & Hd & He').
    apply binary_round_aux_finite; assumption.
Qed.

(** ** A ramp and a time axis start at zero *)

(** [np.linspace(0.0, stop, n)] for a finite [stop]: it starts at [0.0]
    and, with two samples or more, it ends at [stop]. *)
Lemma linspace_from_zero (stop : float) (n : Z) :
  1 <= n -> is_finite stop = true ->
  exists out,
    np.linspace 0 stop n = Ok out /\
    np.size out = n /\
    nth_error out 0 = Some 0%float /\
    (2 <= n -> nth_error out (Z.to_nat (n - 1)) = Some stop) /\
    (forall i, 0 <= i < n - 1 -> nth_error out (Z.to_nat i) = Some (linspace_sample 0 stop n i)).
Proof.
  intros Hn Hf.
  set (y := map (fun i => linspace_sample 0 stop n (Z.of_nat i)) (seq 0 (Z.to_nat n))).
  assert (Hy : List.length y = Z.to_nat n) by (subst y; rewrite length_map, length_seq; reflexivity).
  assert (Hsample : forall i, 0 <= i < n ->
            nth_error y (Z.to_nat i) = Some (linspace_sample 0 stop n i)).
  { intros i Hi. subst y. rewrite nth_error_map_seq by lia. rewrite Z2Nat.id by lia. reflexivity. }
  assert (H0 : linspace_sample 0 stop n 0 = 0%float).
  { unfold linspace_sample. rewrite sub_zero_r. change (Z2float 0) with 0%float.
    destruct (Z.ltb_spec 0 (n - 1)) as [L | L]; cbv zeta.
    - apply first_sample_zero_aux. apply div_int_finite; [ assumption | lia ].
    - apply zero_mul_finite. assumption. }
  exists (if 1 <? n then np.set_last y stop else y).
  split; [ apply linspace_Ok; lia | ]. split; [ | split; [ | split ] ].
  - destruct (1 <? n); [ rewrite size_set_last | ]; unfold np.size; lia.
  - destruct (Z.ltb_spec 1 n).
    + rewrite nth_error_set_last_other by lia.
      change 0%nat with (Z.to_nat 0). rewrite Hsample by lia. f_equal. exact H0.
    + change 0%nat with (Z.to_nat 0). rewrite Hsample by lia. f_equal. exact H0.
  - intros H2. destruct (Z.ltb_spec 1 n); [ | lia ].
    replace (Z.to_nat (n - 1)) with (List.length y - 1)%nat by lia.
    apply nth_error_set_last_last. intros E. rewrite E in Hy. cbn in Hy. lia.
  - intros i Hi. destruct (Z.ltb_spec 1 n); [ | lia ].
    rewrite nth_error_set_last_other by lia. apply Hsample. lia.
Qed.

(** X19.  A ramp to a finite amplitude starts at [0.0], whatever the
    number of samples, and ends at the amplitude when it has two samples
    or more: the spacing [amplitude / (n - 1)] cannot overflow. *)
Theorem ramp_starts_at_zero (self : RampSegment.t) (sweep : Z) (d a : float) (n : Z) :
  returned (Segment.doStepping sweep) self = Ok (d, a) ->
  returned (Segment.calculateNumberOfPoints d) self = Ok n ->
  1 <= n -> is_finite a = true ->
  exists out,
    returned (RampSegment.createArray sweep) self = Ok out /\
    np.size out = n /\
    nth_error out 0 = Some 0%float /\
    (2 <= n -> nth_error out (Z.to_nat (n - 1)) = Some a).
Proof.
  intros Hs Hc Hn Hf.
  destruct (linspace_from_zero a n Hn Hf) as (out & E & Hsz & H0 & Hl & _).
  exists out. split; [ | auto ].
  rewrite ramp_createArray_eq, Hs. cbn [bind fst snd]. rewrite Hc. exact E.
Qed.

Lemma ramp_starts_at_zero_witness :
  exists out,
    returned (RampSegment.createArray 2)
      (sample_ramp 0.003 no_delta {| mode := "Inc"; factor := 1; inc := 0.5 |}) = Ok out /\
    np.size out = 3 /\
    nth_error out 0 = Some 0%float /\
    (2 <= 3 -> nth_error out (Z.to_nat (3 - 1)) = Some 1250%float).
Proof.
  apply (ramp_starts_at_zero
           (sample_ramp 0.003 no_delta {| mode := "Inc"; factor := 1; inc := 0.5 |})
           2 0.003%float 1250 3).
  - reflexivity.
  - reflexivity.
  - lia.
  - reflexivity.
Defined.

(** A duration that has a sample count is finite. *)
Lemma count_defined_finite (d dt : float) (n : Z) :
  (q <~ truediv d dt ;; math_trunc q) = Ok n -> is_finite d = true.
Proof.
  intros H. apply bind_Ok in H. destruct H as (q & Hq & H).
  unfold truediv in Hq. destruct (dt =? 0)%float eqn:Z0; [ discriminate | ]. injection Hq as <-.
  rewrite math_trunc_cases in H.
  destruct (is_nan (d / dt)) eqn:N; [ discriminate | ].
  destruct (is_infinity (d / dt)) eqn:Hinf; [ discriminate | ].
  apply is_finite_of_SF.
  destruct (Prim2SF d) as [s | s | | s m e] eqn:E; try exact I.
  - assert (Hz : ~ exists s', Prim2SF dt = S754_zero s').
    { intros Hz. apply eqb_0_SF in Hz. congruence. }
    destruct (Prim2SF dt) as [s' | s' | | s' m' e'] eqn:E'.
    + apply Hz. eauto.
    + assert (is_nan (d / dt) = true); [ | congruence ].
      apply is_nan_Prim2SF. rewrite div_spec, E, E'. reflexivity.
    + assert (is_nan (d / dt) = true); [ | congruence ].
      apply is_nan_Prim2SF. rewrite div_spec, E, E'. reflexivity.
    + assert (is_infinity (d / dt) = true); [ | congruence ].
      apply is_infinity_Prim2SF. rewrite div_spec, E, E'. cbn. eauto.
  - assert (is_nan (d / dt) = true); [ | congruence ].
    apply is_nan_Prim2SF. rewrite div_spec, E. reflexivity.
Qed.

(** X21.  The times a constructed chirp segment hands to the waveform
    function: [n] of them for [n >= 2], the first [0.0], the last the
    stepped duration, which is also the time [t1] of the end frequency;
    so they are [duration / (n - 1)] apart, not the sample interval. *)
Theorem chirp_time_axis
    (chirp : chirp_function) (self : ChirpSegment.t) (sweep : Z) (d a : float) (n : Z) :
  chirp_constructed self ->
  returned (Segment.doStepping sweep) self = Ok (d, a) ->
  returned (Segment.calculateNumberOfPoints d) self = Ok n ->
  2 <= n ->
  exists x,
    np.size x = n /\
    nth_error x 0 = Some 0%float /\
    nth_error x (Z.to_nat (n - 1)) = Some d /\
    (forall i, 0 <= i < n - 1 -> nth_error x (Z.to_nat i) = Some (linspace_sample 0 d n i)) /\
    returned (ChirpSegment.createArray chirp sweep) self
    = (wave <~ chirp x (ChirpSegment.startFreq self) d (ChirpSegment.endFreq self)
                 (chirp_method (ChirpSegment.kind self)) (-90)%float ;;
       Ok (np.scale a wave)).
Proof.
  intros Hk Hs Hc Hn.
  assert (Hf : is_finite d = true).
  { rewrite returned_calculateNumberOfPoints in Hc. exact (count_defined_finite _ _ _ Hc). }
  destruct (linspace_from_zero d n ltac:(lia) Hf) as (x & E & Hsz & H0 & Hl & Hi).
  exists x. repeat split; auto.
  rewrite (chirp_createArray_constructed chirp sweep self Hk).
  rewrite Hs. cbn [bind fst snd]. rewrite Hc. cbn [bind]. rewrite E. reflexivity.
Qed.

(** X18.  The two levels of a square wave are opposite: the scaled
    negation of [posAmp] is the negation of the scaled [posAmp], to the
    bit. *)
Theorem square_levels_opposite (self : SquareSegment.t) :
  exists hi,
    returned (Segment.applyAmplitudeScale (SquareSegment.posAmp self)) self = Ok hi /\
    returned (Segment.applyAmplitudeScale (- SquareSegment.posAmp self)%float) self
    = Ok (- hi)%float /\
    forall k m i,
      square_sample self k m i
      = if i <? k * m then if i mod k <? k / 2 then hi else (- hi)%float else 0%float.
Proof.
  eexists. split; [ apply returned_applyAmplitudeScale | ].
  cbn [Segment.super SquareSegment.object]. split.
  - rewrite returned_applyAmplitudeScale. cbn [Segment.super SquareSegment.object].
    rewrite mul_opp_l. reflexivity.
  - intros k m i. unfold square_sample. rewrite mul_opp_l. reflexivity.
Qed.

(** ** When stepping fails *)

Lemma applyDelta_not_AttributeError (d : deltaDict) (val : float) (sweepNo : Z) (cls attr : string) :
  Segment._applyDelta d val sweepNo <> Raise (AttributeError cls attr).
Proof.
  unfold Segment._applyDelta, float_of_int.
  repeat match goal with
         | |- context [if ?b then _ else _] => destruct b; cbn
         end; discriminate.
Qed.

(** X9.  [doStepping] fails with an [AttributeError], of whatever class
    and attribute, exactly on square segments, the one class that sets
    no amplitude; the error is then the one for [amplitude] of
    [SquareSegment].  On a segment of another class every failure of
    [doStepping] is a failure of the stepping rule, on the duration or,
    once the duration is stepped, on the amplitude. *)
Theorem doStepping_AttributeError_iff (seg : segment) (sweepNo : Z) :
  ((exists cls attr, returned (doStepping sweepNo) seg = Raise (AttributeError cls attr))
   <-> exists s, seg = Square s) /\
  (forall s, seg = Square s ->
     returned (doStepping sweepNo) seg = Raise (AttributeError "SquareSegment" "amplitude")) /\
  (forall e, returned (doStepping sweepNo) seg = Raise e ->
     (exists s, seg = Square s) \/
     exists a, amplitude_of seg = Ok a /\
       (Segment._applyDelta (Segment.xDelta (base_of seg)) (Segment.duration (base_of seg))
          sweepNo = Raise e \/
        exists x,
          Segment._applyDelta (Segment.xDelta (base_of seg)) (Segment.duration (base_of seg))
            sweepNo = Ok x /\
          Segment._applyDelta (Segment.yDelta (base_of seg)) a sweepNo = Raise e)).
Proof.
  assert (Hsq : forall s, seg = Square s ->
            returned (doStepping sweepNo) seg
            = Raise (AttributeError "SquareSegment" "amplitude"))
    by (intros s ->; reflexivity).
  assert (Hraise : forall e, returned (doStepping sweepNo) seg = Raise e ->
            (exists s, seg = Square s) \/
            exists a, amplitude_of seg = Ok a /\
              (Segment._applyDelta (Segment.xDelta (base_of seg))
                 (Segment.duration (base_of seg)) sweepNo = Raise e \/
               exists x,
                 Segment._applyDelta (Segment.xDelta (base_of seg))
                   (Segment.duration (base_of seg)) sweepNo = Ok x /\
                 Segment._applyDelta (Segment.yDelta (base_of seg)) a sweepNo = Raise e)).
  { intros e H. rewrite returned_doStepping_seg in H.
    destruct seg as [s | s | s | s]; [ left; eauto | | | ]; right;
      cbn [amplitude_of Segment.self_amplitude ConstantSegment.object RampSegment.object
           ChirpSegment.object bind] in H |- *;
      eexists; (split; [ reflexivity | ]);
      (destruct (Segment._applyDelta _ (Segment.duration _) sweepNo) as [x | ex];
         cbn [bind] in H; [ | left; congruence ]);
      right; exists x; (split; [ reflexivity | ]);
      (destruct (Segment._applyDelta _ _ sweepNo) as [y | ey]; cbn [bind] in H;
         [ discriminate | congruence ]). }
  split; [ | split; assumption ].
  split.
  - intros (cls & attr & H). destruct (Hraise _ H) as [Hs | (a & _ & [Hx | (x & _ & Hy)])].
    + exact Hs.
    + exfalso. exact (applyDelta_not_AttributeError _ _ _ _ _ Hx).
    + exfalso. exact (applyDelta_not_AttributeError _ _ _ _ _ Hy).
  - intros [s Hs]. do 2 eexists. exact (Hsq s Hs).
Qed.

(** X8.  The stepping rule raises [ValueError] exactly when the
    dictionary is active and its mode is neither ["Inc"] nor ["LogInc"];
    it raises [OverflowError] exactly when the dictionary is active in
    mode ["Inc"] and the sweep is too large for a float; it returns a
    value in every other case. *)
Theorem applyDelta_raises_iff (d : deltaDict) (val : float) (sweepNo : Z) :
  (Segment._applyDelta d val sweepNo
   = Raise (ValueError [Lit "Increment mode "; Fmt (VStr (mode d)); Lit " is not supported."])
   <-> Segment._hasDelta d = true /\ mode d <> "Inc"%string /\ mode d <> "LogInc"%string) /\
  (Segment._applyDelta d val sweepNo = Raise (OverflowError "int too large to convert to float")
   <-> Segment._hasDelta d = true /\ mode d = "Inc"%string /\
       is_infinity (Z2float sweepNo) = true) /\
  ((exists r, Segment._applyDelta d val sweepNo = Ok r)
   <-> Segment._hasDelta d = false \/ mode d = "LogInc"%string \/
       (mode d = "Inc"%string /\ is_infinity (Z2float sweepNo) = false)).
Proof.
  unfold Segment._applyDelta, float_of_int.
  destruct (Segment._hasDelta d); cbn [negb].
  2:{ repeat split; intros; repeat match goal with
                              | H : _ /\ _ |- _ => destruct H
                              end; try discriminate; eauto. }
  destruct (String.eqb_spec (mode d) "Inc") as [Ei | Ei].
  { destruct (is_infinity (Z2float sweepNo)); cbn [bind];
      repeat split; intros; repeat match goal with
                              | H : _ /\ _ |- _ => destruct H
                              | H : exists _, _ |- _ => destruct H
                              | H : _ \/ _ |- _ => destruct H
                              end; try discriminate; try contradiction; try congruence;
      eauto. }
  destruct (String.eqb_spec (mode d) "LogInc") as [El | El];
    repeat split; intros; repeat match goal with
                            | H : _ /\ _ |- _ => destruct H
                            | H : exists _, _ |- _ => destruct H
                            | H : _ \/ _ |- _ => destruct H
                            end; try discriminate; try contradiction; try congruence; eauto.
Qed.

Lemma chirp_time_axis_witness :
  exists x,
    np.size x = 3 /\
    nth_error x 0 = Some 0%float /\
    nth_error x (Z.to_nat (3 - 1)) = Some 0.003%float /\
    (forall i, 0 <= i < 3 - 1 ->
       nth_error x (Z.to_nat i) = Some (linspace_sample 0 0.003 3 i)) /\
    returned (ChirpSegment.createArray sample_chirp_function 0)
      (sample_chirp_segment "Linear" 0.003 no_delta no_delta)
    = (wave <~ sample_chirp_function x
                 (ChirpSegment.startFreq (sample_chirp_segment "Linear" 0.003 no_delta no_delta))
                 0.003%float
                 (ChirpSegment.endFreq (sample_chirp_segment "Linear" 0.003 no_delta no_delta))
                 (chirp_method
                    (ChirpSegment.kind (sample_chirp_segment "Linear" 0.003 no_delta no_delta)))
                 (-90)%float ;;
       Ok (np.scale 500 wave)).
Proof.
  apply (chirp_time_axis sample_chirp_function
           (sample_chirp_segment "Linear" 0.003 no_delta no_delta) 0 0.003%float 500 3).
  - apply sample_chirp_constructed.
  - reflexivity.
  - reflexivity.
  - lia.
Defined.

(** The time axis of a chirp of 3 ms sampled every millisecond: three
    times, 1.5 ms apart. *)
Example chirp_time_axis_example :
  np.linspace 0 0.003 3 = Ok [0%float; 0.0015%float; 0.003%float].
Proof. reflexivity. Qed.

Lemma getSegmentClass_returns_witness :
  Class_ (sample_segment "Ramp" 0.003 no_delta no_delta)
  = class_name (Ramp (sample_ramp 0.003 no_delta no_delta)) /\
  base_of (Ramp (sample_ramp 0.003 no_delta no_delta))
  = Segment.__init__ (sample_stim 0.001) (sample_channel 0.02 "Common Frequency")
      (sample_segment "Ramp" 0.003 no_delta no_delta) /\
  Segment.duration (base_of (Ramp (sample_ramp 0.003 no_delta no_delta)))
  = Duration (sample_segment "Ramp" 0.003 no_delta no_delta) /\
  Segment.sampleInterval (base_of (Ramp (sample_ramp 0.003 no_delta no_delta)))
  = SampleInterval (sample_stim 0.001) /\
  Segment.amplitudeScale (base_of (Ramp (sample_ramp 0.003 no_delta no_delta))) = 1000%float.
Proof.
  apply (getSegmentClass_returns (sample_stim 0.001) (sample_channel 0.02 "Common Frequency")
           (sample_segment "Ramp" 0.003 no_delta no_delta)).
  reflexivity.
Defined.

Lemma doStepping_without_delta_witness :
  returned (doStepping 7) (Constant (sample_constant 0.003 no_delta no_delta))
  = Ok (Segment.duration (base_of (Constant (sample_constant 0.003 no_delta no_delta))),
        (0.25 * Segment.amplitudeScale
                  (base_of (Constant (sample_constant 0.003 no_delta no_delta))))%float).
Proof.
  apply (doStepping_without_delta (Constant (sample_constant 0.003 no_delta no_delta)) 0.25 7);
    reflexivity.
Defined.

Lemma createArray_sweep_independent_witness :
  createArray sample_chirp_function 0 (Ramp (sample_ramp 0.003 no_delta no_delta))
  = createArray sample_chirp_function 5 (Ramp (sample_ramp 0.003 no_delta no_delta)).
Proof.
  apply (createArray_sweep_independent sample_chirp_function
           (Ramp (sample_ramp 0.003 no_delta no_delta)) 0 5); reflexivity.
Defined.

(** ** An amplitude stepped in mode LogInc *)

Lemma mul_nan_r (x : float) : (x * nan)%float = nan.
Proof.
  apply Prim2SF_inj. rewrite mul_spec. change (Prim2SF nan) with S754_nan.
  destruct (Prim2SF x); reflexivity.
Qed.

Lemma linspace_sample_nan (n i : Z) : linspace_sample 0 nan n i = nan.
Proof.
  unfold linspace_sample. rewrite sub_zero_r. cbv zeta.
  destruct (0 <? n - 1).
  - rewrite nan_div. change (nan =? 0)%float with false. cbv iota. rewrite mul_nan_r. reflexivity.
  - rewrite mul_nan_r. reflexivity.
Qed.

Lemma Forall_removelast {A} (P : A -> Prop) (l : list A) :
  Forall P l -> Forall P (removelast l).
Proof.
  induction 1 as [ | x l Hx Hl IH ]; [ constructor | ].
  cbn [removelast]. destruct l; [ constructor | constructor; assumption ].
Qed.

Lemma Forall_set_last (P : float -> Prop) (y : np.ndarray) (v : float) :
  Forall P y -> P v -> Forall P (np.set_last y v).
Proof.
  intros Hy Hv. unfold np.set_last. destruct y as [ | x y ]; [ constructor | ].
  apply Forall_app. split; [ | repeat constructor; assumption ].
  apply Forall_removelast. assumption.
Qed.

Lemma linspace_nan (n : Z) (out : np.ndarray) :
  np.linspace 0 nan n = Ok out -> Forall (fun v => v = nan) out.
Proof.
  destruct (Z.ltb_spec n 0) as [L | L].
  { unfold np.linspace. destruct (Z.ltb_spec n 0); [ discriminate | lia ]. }
  rewrite linspace_Ok by assumption. cbv zeta. intros [= <-].
  assert (H : Forall (fun v => v = nan)
                (map (fun i => linspace_sample 0 nan n (Z.of_nat i)) (seq 0 (Z.to_nat n)))).
  { apply Forall_forall. intros v Hv. apply in_map_iff in Hv. destruct Hv as (i & <- & _).
    apply linspace_sample_nan. }
  destruct (1 <? n); [ apply Forall_set_last; [ exact H | reflexivity ] | exact H ].
Qed.

(** X11.  When the amplitude is stepped in mode [LogInc], every sample
    of every array a constant, ramp or chirp segment returns is NaN. *)
Theorem logInc_amplitude_all_nan
    (chirp : chirp_function) (seg : segment) (sweep : Z) (amplitude : float)
    (out : np.ndarray) :
  amplitude_of seg = Ok amplitude ->
  mode (Segment.yDelta (base_of seg)) = "LogInc"%string ->
  Segment._hasDelta (Segment.yDelta (base_of seg)) = true ->
  returned (createArray chirp sweep) seg = Ok out ->
  Forall (fun v => v = nan) out.
Proof.
  intros Ha Hm Hy H. rewrite returned_createArray_seg in H.
  assert (Hs : forall da, returned (doStepping sweep) seg = Ok da -> snd da = nan).
  { intros [d a] Hs. rewrite returned_doStepping_seg, Ha in Hs. cbn [bind] in Hs.
    destruct (Segment._applyDelta _ _ sweep) as [x | e] in Hs; cbn [bind] in Hs;
      [ | discriminate ].
    unfold Segment._applyDelta in Hs. rewrite Hy, Hm in Hs. cbn in Hs.
    injection Hs as _ <-. apply nan_mul. }
  destruct seg as [s | s | s | s]; [ discriminate | | | ].
  - apply bind_Ok in H. destruct H as (da & Hda & H). rewrite (Hs da Hda) in H.
    apply bind_Ok in H. destruct H as (n & _ & H).
    unfold np.full in H. destruct (n <? 0); [ discriminate | ]. injection H as <-.
    apply Forall_forall. intros v Hv. exact (repeat_spec _ _ _ Hv).
  - apply bind_Ok in H. destruct H as (da & Hda & H). rewrite (Hs da Hda) in H.
    apply bind_Ok in H. destruct H as (n & _ & H).
    exact (linspace_nan n out H).
  - apply bind_Ok in H. destruct H as (da & Hda & H). rewrite (Hs da Hda) in H.
    apply bind_Ok in H. destruct H as (n & _ & H).
    apply bind_Ok in H. destruct H as (x & _ & H).
    apply bind_Ok in H. destruct H as (method & _ & H).
    apply bind_Ok in H. destruct H as (wave & _ & [= <-]).
    unfold np.scale. apply Forall_forall. intros v Hv. apply in_map_iff in Hv.
    destruct Hv as (w & <- & _). apply nan_mul.
Qed.

Lemma logInc_amplitude_all_nan_witness :
  Forall (fun v => v = nan) [nan; nan; nan].
Proof.
  apply (logInc_amplitude_all_nan sample_chirp_function
           (Chirp (sample_chirp_segment "Linear" 0.003 no_delta
                     {| mode := "LogInc"; factor := 2; inc := 0 |}))
           1 0.5%float).
  - reflexivity.
  - reflexivity.
  - reflexivity.
  - reflexivity.
Defined.
